(** * decoupler: the univariate linear model (ULM) and its preprocessing

    A shallow embedding of [decoupler/pre.py] and [decoupler/method_ulm.py].

    The entries of the arrays that the functions receive are finite
    numbers, modelled as reals.  What the numba kernel computes from them is
    a float: a number, an infinity or NaN.  The operations on floats
    (with their rounding), [np.cov] and [scipy.special.stdtr] are
    parameters of the embedding, so that what is proved of the kernel holds
    for every arithmetic; where a property needs a law of the arithmetic,
    the law is a hypothesis.  Exact arithmetic is one instance.
    Identifiers (regulators, targets, features, samples) are strings. *)

From Stdlib Require Import String Ascii.
From Stdlib Require Import List Bool Arith ZArith Lia.
From Stdlib Require Import Reals Lra Ratan.
From Stdlib Require Import DecimalString Sorted Permutation.
Import ListNotations.

Open Scope string_scope.
Open Scope list_scope.
Open Scope R_scope.

(** ** Python: exceptions, results and call binding *)

Module Py.

(** Why binding the arguments of a call to a signature fails.  The last
    one is the refusal of a compiled function whose signature the types of
    the arguments do not match. *)
Inductive bind_error : Type :=
| UnexpectedKeyword (fn kw : string)
| MultipleValues (fn kw : string)
| TooManyPositional (fn : string) (takes given : nat)
| MissingPositional (fn : string) (names : list string)
| NoMatchingDefinition (fn : string).

Inductive exn : Type :=
| TypeError (why : bind_error)
| BadOperand (what : string)
| ValueError (msg : string)
| AssertionError (msg : string)
| KeyError (key : string)
| IndexError
| AttributeError (name : string).

Inductive result (A : Type) : Type :=
| Ok (a : A)
| Raise (e : exn).

Arguments Ok {A} a.
Arguments Raise {A} e.

Definition bind {A B : Type} (m : result A) (k : A -> result B) : result B :=
  match m with
  | Ok a => k a
  | Raise e => Raise e
  end.

Definition is_ok {A : Type} (m : result A) : bool :=
  match m with Ok _ => true | Raise _ => false end.

(** [for x in xs: acc = body(x, acc)], stopping at the first exception. *)
Fixpoint for_each {A S : Type} (xs : list A) (body : A -> S -> result S)
  (s : S) : result S :=
  match xs with
  | [] => Ok s
  | x :: xs' => bind (body x s) (for_each xs' body)
  end.

(** The results of [f] on each element, up to the first exception. *)
Fixpoint mapM {A B : Type} (f : A -> result B) (xs : list A)
  : result (list B) :=
  match xs with
  | [] => Ok []
  | x :: xs' => bind (f x) (fun y => bind (mapM f xs') (fun ys => Ok (y :: ys)))
  end.

(** [for i in range(n)]. *)
Definition for_range {S : Type} (n : nat) (body : nat -> S -> result S)
  (s : S) : result S :=
  for_each (seq 0 n) body s.

(** [for i in range(n)] in compiled code, where nothing is raised. *)
Definition loop {S : Type} (n : nat) (body : nat -> S -> S) (s : S) : S :=
  fold_left (fun s i => body i s) (seq 0 n) s.

End Py.

Export Py.

Declare Scope py_scope.
Delimit Scope py_scope with py.
Notation "x <- m ;; k" := (Py.bind m (fun x => k))
  (at level 61, m at next level, right associativity) : py_scope.
Notation "' p <- m ;; k" := (Py.bind m (fun x => let p := x in k))
  (at level 61, p pattern, m at next level, right associativity) : py_scope.
Open Scope py_scope.

(** ** NumPy: arrays of labels and of reals *)

Module Np.

(** A dense two-dimensional array.  The number of columns is kept with the
    rows, as [shape[1]] of an array that has no row is still defined. *)
Record ndarray : Type := mk_ndarray {
  ncols : nat;
  rows : list (list R)
}.

Definition shape0 (a : ndarray) : nat := length (rows a).
Definition shape1 (a : ndarray) : nat := ncols a.

Definition wf_ndarray (a : ndarray) : Prop :=
  Forall (fun r => length r = ncols a) (rows a).

(** [np.zeros(n)] and [np.zeros((n, m))]. *)
Definition zeros (n : nat) : list R := repeat 0 n.
Definition zeros2 (n m : nat) : ndarray := mk_ndarray m (repeat (zeros m) n).

(** [a[i] = v] on a one-dimensional array, [i] in range. *)
Fixpoint set_nth {A : Type} (i : nat) (v : A) (a : list A) : list A :=
  match a, i with
  | [], _ => []
  | _ :: a', O => v :: a'
  | x :: a', S i' => x :: set_nth i' v a'
  end.

(** [a[i, j]] and [a[i, j] = v]. *)
Definition get2 (a : ndarray) (i j : nat) : R := nth j (nth i (rows a) []) 0.
Definition set2 (a : ndarray) (i j : nat) (v : R) : ndarray :=
  mk_ndarray (ncols a) (set_nth i (set_nth j v (nth i (rows a) [])) (rows a)).

(** [a[:, j]]. *)
Definition column (j : nat) (a : ndarray) : list R :=
  map (fun r => nth j r 0) (rows a).

(** [a[s:e]]. *)
Definition slice {A : Type} (s e : nat) (a : list A) : list A :=
  firstn (e - s) (skipn s a).

(** [row[idx] = vals]: the assignments are made in order. *)
Fixpoint scatter (row : list R) (idx : list nat) (vals : list R) : list R :=
  match idx, vals with
  | k :: idx', v :: vals' => scatter (set_nth k v row) idx' vals'
  | _, _ => row
  end.

Definition sum (a : list R) : R := fold_right Rplus 0 a.
Definition mean (a : list R) : R := sum a / INR (length a).
Definition dot (a b : list R) : R :=
  sum (map (fun p => fst p * snd p) (combine a b)).

(** [np.cov(x, y, bias=1)] without rounding: the two variables are stacked,
    each is centred on its mean, and the products are averaged over the [N]
    observations (no Bessel correction).  The result is the 2x2 matrix in
    [.flat] order. *)
Definition center (a : list R) : list R := map (fun v => v - mean a) a.
Definition cov_bias (x y : list R) : R * R * R * R :=
  let xm := center x in
  let ym := center y in
  let n := INR (length x) in
  (dot xm xm / n, dot xm ym / n, dot ym xm / n, dot ym ym / n).

(** [np.isin(a, test)] on labels. *)
Definition isin1 (test : list string) (s : string) : bool :=
  existsb (String.eqb s) test.
Definition isin (a test : list string) : list bool := map (isin1 test) a.

(** The first position at which label [s] occurs in [a]. *)
Fixpoint find_label (s : string) (a : list string) : option nat :=
  match a with
  | [] => None
  | t :: a' =>
      if String.eqb s t then Some 0%nat
      else match find_label s a' with
           | Some p => Some (S p)
           | None => None
           end
  end.

(** [a[msk]] with a boolean mask. *)
Fixpoint mask_select {A : Type} (msk : list bool) (a : list A) : list A :=
  match msk, a with
  | b :: msk', x :: a' =>
      if b then x :: mask_select msk' a' else mask_select msk' a'
  | _, _ => []
  end.

(** Sorting labels (code-point order). *)
Fixpoint insert_sorted (s : string) (l : list string) : list string :=
  match l with
  | [] => [s]
  | t :: l' => if String.leb s t then s :: l else t :: insert_sorted s l'
  end.
Definition sort (l : list string) : list string :=
  fold_right insert_sorted [] l.

(** [np.unique(a, return_counts=True)]: the sorted distinct labels and how
    often each occurs. *)
Definition unique (a : list string) : list string :=
  sort (nodup string_dec a).
Definition unique_counts (a : list string) : list string * list nat :=
  let u := unique a in (u, map (count_occ string_dec a) u).

(** [np.argsort(c)] on labels: positions ordered by the label they hold. *)
Fixpoint insert_by (c : list string) (k : nat) (l : list nat) : list nat :=
  match l with
  | [] => [k]
  | t :: l' =>
      if String.leb (nth k c "") (nth t c "") then k :: l
      else t :: insert_by c k l'
  end.
Definition argsort (c : list string) : list nat :=
  fold_right (insert_by c) [] (seq 0 (length c)).

(** [a[idx]] with an integer index array. *)
Definition take {A : Type} (d : A) (idx : list nat) (a : list A) : list A :=
  map (fun k => nth k a d) idx.

End Np.

Export Np.

(** ** SciPy: compressed sparse rows *)

Module Sp.

(** A [csr_matrix]: its shape and its three arrays.  Valid index arrays
    hold no negative entry, so they are modelled as naturals. *)
Record csr : Type := mk_csr {
  cshape : nat * nat;
  data : list R;
  indptr : list nat;
  indices : list nat
}.

Definition nonzero (p : nat * R) : bool :=
  if Req_dec_T (snd p) 0 then false else true.

(** The stored entries of one dense row: (column, value), zeros left out. *)
Definition row_entries (row : list R) : list (nat * R) :=
  filter nonzero (combine (seq 0 (length row)) row).

Fixpoint row_pointers (start : nat) (lens : list nat) : list nat :=
  match lens with
  | [] => [start]
  | n :: lens' => start :: row_pointers (start + n) lens'
  end.

(** [csr_matrix(a)] of a dense array. *)
Definition csr_matrix (a : ndarray) : csr :=
  let entries := map row_entries (rows a) in
  mk_csr (shape0 a, shape1 a)
         (flat_map (map snd) entries)
         (row_pointers 0 (map (@length _) entries))
         (flat_map (map fst) entries).

(** A matrix as a caller may hold it: a dense array or a sparse matrix. *)
Inductive matrix : Type :=
| Dense (a : ndarray)
| Sparse (m : csr).

Definition mshape (m : matrix) : nat * nat :=
  match m with
  | Dense a => (shape0 a, shape1 a)
  | Sparse s => cshape s
  end.

(** [csr_matrix(m)] of a matrix that may be sparse already. *)
Definition as_csr (m : matrix) : csr :=
  match m with
  | Dense a => csr_matrix a
  | Sparse s => s
  end.

(** The stored entries of row [i], (column, value), in storage order. *)
Definition stored (m : csr) (i : nat) : list (nat * R) :=
  let s := nth i (indptr m) 0%nat in
  let e := nth (i + 1) (indptr m) 0%nat in
  combine (slice s e (indices m)) (slice s e (data m)).

(** The positions at which the index array [idx] names column [j]. *)
Definition positions (j : nat) (idx : list nat) : list nat :=
  filter (fun p => Nat.eqb (nth p idx 0%nat) j) (seq 0 (length idx)).

(** [m[:, idx]] on a sparse matrix, [idx] an integer array: row by row, a
    stored entry is kept where [idx] names its column, at the position in
    [idx]; the entries of a row stay in their storage order. *)
Definition csr_take (idx : list nat) (m : csr) : csr :=
  let entries :=
    map (fun i =>
           flat_map (fun jv => map (fun p => (p, snd jv))
                                   (positions (fst jv) idx))
                    (stored m i))
        (seq 0 (fst (cshape m))) in
  mk_csr (fst (cshape m), length idx)
         (flat_map (map snd) entries)
         (row_pointers 0 (map (@length _) entries))
         (flat_map (map fst) entries).

(** [m[:, idx]]: an index that is no column raises [IndexError]. *)
Definition take_columns (idx : list nat) (m : matrix) : result matrix :=
  if forallb (fun k => (k <? snd (mshape m))%nat) idx
  then Ok match m with
          | Dense a => Dense (mk_ndarray (length idx) (map (take 0 idx) (rows a)))
          | Sparse s => Sparse (csr_take idx s)
          end
  else Raise IndexError.

(** [m.astype(dtype)]: every entry (of a sparse matrix: every stored
    entry) is converted. *)
Definition astype (cast : R -> R) (m : matrix) : matrix :=
  match m with
  | Dense a => Dense (mk_ndarray (ncols a) (map (map cast) (rows a)))
  | Sparse s => Sparse (mk_csr (cshape s) (map cast (data s)) (indptr s)
                               (indices s))
  end.

End Sp.

Export Sp.

(** ** Floating-point values and the arithmetic of the machine *)

Module Fp.

(** What a float holds: a number, an infinity or NaN.  The two zeros are
    one number, as they are for [==]. *)
Inductive num : Type :=
| Fin (x : R)
| PInf
| NInf
| NaN.

(** Unary minus and [np.abs] round nothing. *)
Definition fneg (a : num) : num :=
  match a with
  | Fin x => Fin (- x)
  | PInf => NInf
  | NInf => PInf
  | NaN => NaN
  end.
Definition fabs (a : num) : num :=
  match a with
  | Fin x => Fin (Rabs x)
  | PInf | NInf => PInf
  | NaN => NaN
  end.

(** The arithmetic that runs the code.  [f8 x] is the float64 that a
    literal or an integer of value [x] denotes; [f4 a] is what a float32
    array holds once the float64 [a] is stored in it; [fadd], [fsub], [fmul],
    [fdiv] and [fsqrt] are [+], [-], [*], [/] and [np.sqrt] on float64;
    [np_cov x y bias] is [np.cov(x, y, bias=bias).flat]; [stdtr] is
    [scipy.special.stdtr]; [cast dtype] is the conversion of an array entry
    to the dtype of that name. *)
Record arith : Type := mk_arith {
  f8 : R -> num;
  f4 : num -> num;
  fadd : num -> num -> num;
  fsub : num -> num -> num;
  fmul : num -> num -> num;
  fdiv : num -> num -> num;
  fsqrt : num -> num;
  np_cov : list R -> list R -> bool -> num * num * num * num;
  stdtr : Z -> num -> num;
  cast : string -> R -> R
}.

(** An arithmetic in which negation commutes with rounding, as it does
    under IEEE 754 (rounding to nearest is symmetric around zero). *)
Record symmetric (fp : arith) : Prop := mk_symmetric {
  cov_odd : forall x y bias,
    np_cov fp (map Ropp x) y bias
    = let '(a, b, c, d) := np_cov fp x y bias in (a, fneg b, fneg c, d);
  div_odd : forall a b, fdiv fp (fneg a) b = fneg (fdiv fp a b);
  mul_odd : forall a b, fmul fp (fneg a) b = fneg (fmul fp a b);
  mul_comm : forall a b, fmul fp a b = fmul fp b a;
  sub_opp : forall a b, fsub fp a (fneg b) = fadd fp a b;
  add_opp : forall a b, fadd fp a (fneg b) = fsub fp a b;
  f4_odd : forall a, f4 fp (fneg a) = fneg (f4 fp a)
}.

(** A two-dimensional array of floats. *)
Record farray : Type := mk_farray {
  fcols : nat;
  frows : list (list num)
}.

(** [np.zeros((n, m), dtype=f4)], [a[i, j]] and [a[i, j] = v]. *)
Definition fzeros2 (n m : nat) : farray :=
  mk_farray m (repeat (repeat (Fin 0) m) n).
Definition fget2 (a : farray) (i j : nat) : num :=
  nth j (nth i (frows a) []) NaN.
Definition fset2 (a : farray) (i j : nat) (v : num) : farray :=
  mk_farray (fcols a) (set_nth i (set_nth j v (nth i (frows a) [])) (frows a)).

End Fp.

Export Fp.

(** ** pandas: data frames held in a store *)

Module Pd.

Inductive cell : Type :=
| CStr (s : string)
| CNum (x : R)
| CNaN.

(** A frame: row labels and named columns, in order.  Column labels may
    repeat, as in pandas. *)
Record DataFrame : Type := mk_frame {
  index : list Z;
  columns : list (string * list cell)
}.

Definition labels (d : DataFrame) : list string := map fst (columns d).

(** A frame of numbers with string labels on both axes and a [name]
    attribute, as [run_ulm] builds them for its results. *)
Record table : Type := mk_table {
  tvalues : farray;
  tindex : list string;
  tcolumns : list string;
  tname : string
}.

(** The caller's objects.  A frame is reached through a reference (its
    position in [frames]); [stderr] and [stdout] collect what is printed;
    [obsm] is the [obsm] mapping of the caller's AnnData object. *)
Record world : Type := mk_world {
  frames : list DataFrame;
  stderr : list string;
  stdout : list string;
  obsm : list (string * table)
}.

Definition ref : Type := nat.

(** Computations that read and change the world and may raise. *)
Definition M (A : Type) : Type := world -> result A * world.

Definition ret {A : Type} (a : A) : M A := fun w => (Ok a, w).
Definition raise {A : Type} (e : exn) : M A := fun w => (Raise e, w).
Definition lift {A : Type} (m : result A) : M A := fun w => (m, w).
Definition mbind {A B : Type} (m : M A) (k : A -> M B) : M B :=
  fun w => match m w with
           | (Ok a, w') => k a w'
           | (Raise e, w') => (Raise e, w')
           end.

Definition deref (r : ref) : M DataFrame :=
  fun w => match nth_error (frames w) r with
           | Some d => (Ok d, w)
           | None => (Raise (BadOperand "dangling reference"), w)
           end.

(** A new object is appended to the store. *)
Definition alloc (d : DataFrame) : M ref :=
  fun w => (Ok (length (frames w)),
            mk_world (frames w ++ [d]) (stderr w) (stdout w) (obsm w)).

(** In-place update of the object behind a reference. *)
Definition update (r : ref) (d : DataFrame) : M unit :=
  fun w => (Ok tt, mk_world (set_nth r d (frames w)) (stderr w) (stdout w) (obsm w)).

Definition print_stderr (s : string) : M unit :=
  fun w => (Ok tt, mk_world (frames w) (stderr w ++ [s]) (stdout w) (obsm w)).
Definition print_stdout (s : string) : M unit :=
  fun w => (Ok tt, mk_world (frames w) (stderr w) (stdout w ++ [s]) (obsm w)).

(** [mat.obsm[key] = t]. *)
Definition set_obsm (key : string) (t : table) : M unit :=
  fun w => (Ok tt,
            mk_world (frames w) (stderr w) (stdout w)
                     ((key, t) :: filter (fun kv => negb (String.eqb (fst kv) key))
                                         (obsm w))).

(** [assert cond, msg]. *)
Definition assert (cond : bool) (msg : string) : M unit :=
  if cond then ret tt else raise (AssertionError msg).

(** [name in net.columns]. *)
Definition has_column (name : string) (d : DataFrame) : bool :=
  existsb (String.eqb name) (labels d).

(** [net.copy()]. *)
Definition copy (r : ref) : M ref := mbind (deref r) alloc.

(** [net[name] = v] with a scalar: the column is overwritten where it is,
    or appended when the label is new; the value is broadcast over the rows. *)
Fixpoint set_column (name : string) (col : list cell)
  (cs : list (string * list cell)) : list (string * list cell) :=
  match cs with
  | [] => [(name, col)]
  | (n, c) :: cs' =>
      if String.eqb n name then (n, col) :: cs'
      else (n, c) :: set_column name col cs'
  end.
Definition setitem_scalar (r : ref) (name : string) (v : cell) : M unit :=
  mbind (deref r) (fun d =>
  update r (mk_frame (index d)
              (set_column name (repeat v (length (index d))) (columns d)))).

(** A Python dict built by a display [{k1: v1, k2: v2, ...}]: a later
    equal key replaces the value of the earlier one. *)
Fixpoint dict_set (k v : string) (d : list (string * string))
  : list (string * string) :=
  match d with
  | [] => [(k, v)]
  | (k', v') :: d' =>
      if String.eqb k' k then (k', v) :: d' else (k', v') :: dict_set k v d'
  end.
Definition dict_display (items : list (string * string))
  : list (string * string) :=
  fold_left (fun d kv => dict_set (fst kv) (snd kv) d) items [].
Fixpoint dict_get (k : string) (d : list (string * string)) (dflt : string)
  : string :=
  match d with
  | [] => dflt
  | (k', v) :: d' => if String.eqb k' k then v else dict_get k d' dflt
  end.

(** [net.rename(columns=mapper)]: a new frame whose labels went through
    the mapper; labels the mapper does not know are kept. *)
Definition rename (r : ref) (mapper : list (string * string)) : M ref :=
  mbind (deref r) (fun d =>
  alloc (mk_frame (index d)
           (map (fun nc => (dict_get (fst nc) mapper (fst nc), snd nc))
                (columns d)))).

Fixpoint find_column (name : string) (cs : list (string * list cell))
  : option (list cell) :=
  match cs with
  | [] => None
  | (n, c) :: cs' => if String.eqb n name then Some c else find_column name cs'
  end.

Fixpoint has_dup (l : list string) : bool :=
  match l with
  | [] => false
  | x :: l' => existsb (String.eqb x) l' || has_dup l'
  end.

(** [net.reindex(columns=names)]: a new frame with exactly these columns,
    a column of NaN for a label the frame lacks.  pandas refuses to
    reindex an axis that holds a label twice. *)
Definition reindex (r : ref) (names : list string) : M ref :=
  mbind (deref r) (fun d =>
  if has_dup (labels d)
  then raise (ValueError "cannot reindex on an axis with duplicate labels")
  else alloc (mk_frame (index d)
                (map (fun n =>
                        (n, match find_column n (columns d) with
                            | Some c => c
                            | None => repeat CNaN (length (index d))
                            end)) names))).

End Pd.

Export Pd.

Notation "x <~ m ;; k" := (Pd.mbind m (fun x => k))
  (at level 61, m at next level, right associativity) : py_scope.
Notation "' p <~ m ;; k" := (Pd.mbind m (fun x => let p := x in k))
  (at level 61, p pattern, m at next level, right associativity) : py_scope.

(** ** The long-format network and its pivot *)

Module Net.

(** One record of a network in the canonical schema.  A missing weight
    (NaN) is [None]. *)
Record edge : Type := mk_edge {
  source : string;
  target : string;
  weight : option R
}.

Definition at_cell (t s : string) (e : edge) : bool :=
  String.eqb (target e) t && String.eqb (source e) s.

Fixpoint has_dup_pair (net : list edge) : bool :=
  match net with
  | [] => false
  | e :: net' => existsb (at_cell (target e) (source e)) net' || has_dup_pair net'
  end.

(** [net.pivot(columns='source', index='target', values='weight')]: the
    sorted distinct targets label the rows, the sorted distinct sources the
    columns, and a cell holds the weight of the record of that pair, NaN
    when there is none.  pandas raises [ValueError] when a pair occurs in
    more than one record. *)
Definition pivot (net : list edge)
  : result (list string * list string * list (list (option R))) :=
  if has_dup_pair net
  then Raise (ValueError "Index contains duplicate entries, cannot reshape")
  else
    let idx := unique (map target net) in
    let cols := unique (map source net) in
    Ok (idx, cols,
        map (fun t =>
               map (fun s => match find (at_cell t s) net with
                             | Some e => weight e
                             | None => None
                             end) cols) idx).

Definition label_of (c : cell) : result string :=
  match c with
  | CStr s => Ok s
  | _ => Raise (BadOperand "identifier is not a string")
  end.
Definition number_of (c : cell) : result (option R) :=
  match c with
  | CNum x => Ok (Some x)
  | CNaN => Ok None
  | CStr _ => Raise (BadOperand "weight is not a number")
  end.

Fixpoint zip_edges (ss ts ws : list cell) : result (list edge) :=
  match ss, ts, ws with
  | s :: ss', t :: ts', w :: ws' =>
      s' <- label_of s ;; t' <- label_of t ;; w' <- number_of w ;;
      rest <- zip_edges ss' ts' ws' ;;
      Ok (mk_edge s' t' w' :: rest)
  | _, _, _ => Ok []
  end.

Definition get_column (name : string) (d : DataFrame) : result (list cell) :=
  match find_column name (columns d) with
  | Some c => Ok c
  | None => Raise (KeyError name)
  end.

(** The records of a frame that has the canonical columns. *)
Definition records (d : DataFrame) : result (list edge) :=
  ss <- get_column "source" d ;;
  ts <- get_column "target" d ;;
  ws <- get_column "weight" d ;;
  zip_edges ss ts ws.

End Net.

Export Net.

(** ** decoupler/pre.py *)

Module Pre.

(** An [AnnData] object, as far as [extract] reads it. *)
Record AnnData : Type := mk_anndata {
  raw : option (matrix * list string);
  X : matrix;
  var_index : list string;
  obs_index : list string
}.

(** What a caller may pass as [mat]: a list of three, a data frame, an
    AnnData object, or something else. *)
Inductive container : Type :=
| CList (m : matrix) (r c : list string)
| CFrame (values : ndarray) (idx cols : list string)
| CAnnData (a : AnnData)
| COther.

(** The message of [extract] for an input of another type; its literal
    runs over two lines of the source. *)
Definition newline : string := String "010"%char EmptyString.
Definition bad_container : string :=
  "mat must be a list of [matrix, samples, features], " ++ newline
  ++ "        dataframe (samples x features) or an AnnData instance.".

(** [extract(mat, use_raw=True, dtype=np.float32)].  With [use_raw] the
    matrix [mat.raw.X] is taken as it is, dense or sparse; on the other
    paths the matrix goes through [csr_matrix]. *)
Definition extract (fp : arith) (mat : container) (use_raw : bool)
  (dtype : string) : result (matrix * list string * list string) :=
  '(m, r, c) <-
    match mat with
    | CList m r c => Ok (Sparse (as_csr m), r, c)
    | CFrame values idx cols => Ok (Sparse (csr_matrix values), idx, cols)
    | CAnnData a =>
        if use_raw then
          match raw a with
          | None =>
              Raise (ValueError "Received `use_raw=True`, but `mat.raw` is empty.")
          | Some (x, v) => Ok (x, obs_index a, v)
          end
        else Ok (Sparse (as_csr (X a)), obs_index a, var_index a)
    | COther =>
        Raise (ValueError bad_container)
    end ;;
  let msk := argsort c in
  m <- take_columns msk m ;;
  Ok (astype (cast fp dtype) m, r, take "" msk c).

(** [filt_min_n(c, net, min_n=5)]. *)
Definition filt_min_n (c : list string) (net : list edge) (min_n : Z)
  : list edge :=
  let msk := isin (map target net) c in
  let '(sources, counts) :=
    unique_counts (map source (mask_select msk net)) in
  let msk :=
    isin (map source net)
         (mask_select (map (fun n => (min_n <=? Z.of_nat n)%Z) counts) sources) in
  mask_select msk net.

(** How many records of [net] have regulator [s] and a target among the
    feature labels [c]. *)
Definition n_resolved (c : list string) (net : list edge) (s : string) : nat :=
  length (filter (fun e => String.eqb (source e) s && isin1 c (target e)) net).

(** The inner loop of [match] for one feature label: the first [j] with
    [c[i] == r[j]] gives the row, and the loop is left. *)
Fixpoint match_inner (net : ndarray) (ci : string) (r : list string) (j : nat)
  (regX_i : list R) : result (list R) :=
  match r with
  | [] => Ok regX_i
  | rj :: r' =>
      if String.eqb ci rj then
        match nth_error (rows net) j with
        | Some row => Ok row
        | None => Raise IndexError
        end
      else match_inner net ci r' (S j) regX_i
  end.

(** [match(mat, c, r, net)]: the matrix [regX] that the loops fill.  The
    function hands it back as [csr_matrix(regX)], the same entries in
    float64 and in sparse form; the embedding keeps the entries. *)
Definition match_ (mat : csr) (c r : list string) (net : ndarray)
  : result ndarray :=
  let regX := zeros2 (length c) (shape1 net) in
  for_range (length c)
    (fun i regX =>
       row <- match_inner net (nth i c "") r 0 (nth i (rows regX) []) ;;
       Ok (mk_ndarray (ncols regX) (set_nth i row (rows regX))))
    regX.

Definition dquote : string := String "034"%char EmptyString.
Definition not_found (name : string) : string :=
  "Column name " ++ dquote ++ name ++ dquote
  ++ " not found in net. Please specify a valid column.".

(** [rename_net(net, source='source', target='target', weight='weight')].
    [weight = None] is [None]. *)
Definition rename_net (net : ref) (source target : string)
  (weight : option string) : M ref :=
  d <~ deref net ;;
  _ <~ assert (has_column source d) (not_found source) ;;
  _ <~ assert (has_column target d) (not_found target) ;;
  '(net, weight) <~
    match weight with
    | Some w =>
        _ <~ assert (has_column w d) (not_found w) ;;
        ret (net, w)
    | None =>
        _ <~ print_stderr "weight column not provided, will be set to 1s." ;;
        net <~ copy net ;;
        _ <~ setitem_scalar net "weight" (CNum 1) ;;
        ret (net, "weight")
    end ;;
  net <~ rename net (dict_display [(source, "source"); (target, "target");
                                   (weight, "weight")]) ;;
  net <~ reindex net ["source"; "target"; "weight"] ;;
  ret net.

(** The frame after line 157 when no weight column is named, and the
    column labels that line 161 then gives it. *)
Definition with_unit_weight (d : DataFrame) : DataFrame :=
  mk_frame (index d)
    (set_column "weight" (repeat (CNum 1) (length (index d))) (columns d)).
Definition renamed_labels (source target : string) (d : DataFrame)
  : list string :=
  map (fun l =>
         dict_get l (dict_display [(source, "source"); (target, "target");
                                   ("weight", "weight")]) l)
      (labels (with_unit_weight d)).

(** [get_net_mat(net)]. *)
Definition get_net_mat (net : list edge)
  : result (list string * list string * ndarray) :=
  '(targets, sources, X) <- pivot net ;;
  let X := map (map (fun v => match v with Some w => w | None => 0 end)) X in
  Ok (sources, targets, mk_ndarray (length sources) X).

End Pre.

Export Pre.

(** ** Calling a Python function *)

Module Call.

(** Values that cross the calls of [run_ulm]. *)
Inductive pyval : Type :=
| VNone
| VBool (b : bool)
| VDtype (name : string)
| VContainer (c : container)
| VLabels (l : list string)
| VArray (a : ndarray)
| VSparse (m : csr)
| VMatrix (m : matrix).

(** A [def]: the parameters in order, each with its default if it has one.
    None of the functions here takes variadic arguments. *)
Record signature : Type := mk_sig {
  fname : string;
  params : list (string * option pyval)
}.

Fixpoint index_of (k : string) (l : list string) : option nat :=
  match l with
  | [] => None
  | x :: l' =>
      if String.eqb x k then Some 0%nat
      else match index_of k l' with Some p => Some (S p) | None => None end
  end.

Fixpoint lookup_kw (k : string) (kw : list (string * pyval)) : option pyval :=
  match kw with
  | [] => None
  | (k', v) :: kw' => if String.eqb k' k then Some v else lookup_kw k kw'
  end.

(** Every keyword must name a parameter that no positional argument has
    already filled. *)
Fixpoint check_keywords (fn : string) (names : list string) (npos : nat)
  (kw : list (string * pyval)) : result unit :=
  match kw with
  | [] => Ok tt
  | (k, _) :: kw' =>
      match index_of k names with
      | None => Raise (TypeError (UnexpectedKeyword fn k))
      | Some p =>
          if (p <? npos)%nat then Raise (TypeError (MultipleValues fn k))
          else check_keywords fn names npos kw'
      end
  end.

(** The value of each parameter: positional, else keyword, else default;
    [inl name] when there is none. *)
Fixpoint fill (ps : list (string * option pyval)) (pos : list pyval)
  (kw : list (string * pyval)) : list (string + pyval) :=
  match ps with
  | [] => []
  | (n, d) :: ps' =>
      match pos with
      | v :: pos' => inr v :: fill ps' pos' kw
      | [] =>
          match lookup_kw n kw, d with
          | Some v, _ => inr v
          | None, Some v => inr v
          | None, None => inl n
          end :: fill ps' [] kw
      end
  end.

Fixpoint missing (slots : list (string + pyval)) : list string :=
  match slots with
  | [] => []
  | inl n :: s' => n :: missing s'
  | inr _ :: s' => missing s'
  end.

Fixpoint bound (slots : list (string + pyval)) : list pyval :=
  match slots with
  | [] => []
  | inl _ :: s' => bound s'
  | inr v :: s' => v :: bound s'
  end.

(** Binding the arguments of a call, in the order CPython checks them:
    keywords, then the number of positional arguments, then the
    parameters left without a value. *)
Definition bind_args (sig : signature) (pos : list pyval)
  (kw : list (string * pyval)) : result (list pyval) :=
  _ <- check_keywords (fname sig) (map fst (params sig)) (length pos) kw ;;
  if (length (params sig) <? length pos)%nat
  then Raise (TypeError (TooManyPositional (fname sig) (length (params sig))
                                           (length pos)))
  else
    let slots := fill (params sig) pos kw in
    match missing slots with
    | [] => Ok (bound slots)
    | names => Raise (TypeError (MissingPositional (fname sig) names))
    end.

(** A call with positional and keyword arguments: the body runs on the
    bound arguments. *)
Definition call {A : Type} (sig : signature) (body : list pyval -> result A)
  (pos : list pyval) (kw : list (string * pyval)) : result A :=
  args <- bind_args sig pos kw ;; body args.

(** [def extract(mat, use_raw=True, dtype=np.float32)]. *)
Definition extract_sig : signature :=
  mk_sig "extract"
    [("mat", None); ("use_raw", Some (VBool true));
     ("dtype", Some (VDtype "float32"))].
Definition extract_body (fp : arith) (args : list pyval)
  : result (matrix * list string * list string) :=
  match args with
  | [VContainer mat; VBool use_raw; VDtype dtype] =>
      extract fp mat use_raw dtype
  | _ => Raise (BadOperand "extract")
  end.

(** [def match(mat, c, r, net)]. *)
Definition match_sig : signature :=
  mk_sig "match" [("mat", None); ("c", None); ("r", None); ("net", None)].
Definition match_body (args : list pyval) : result ndarray :=
  match args with
  | [VSparse mat; VLabels c; VLabels r; VArray net] => match_ mat c r net
  | _ => Raise (BadOperand "match")
  end.

End Call.

Export Call.

(** ** decoupler/method_ulm.py *)

Module MethodUlm.

(** The stabilizing constant [1.0e-20]. *)
Definition eps : R := / 10 ^ 20.

(** Lines 40-46, the body of the inner loop: the float64 estimate of one
    regulator column [x] for one dense sample [row]. *)
Definition ulm_cell (fp : arith) (df : Z) (x row : list R) : num :=
  let '(ssxm, ssxym, _, ssym) := np_cov fp x row true in
  let r := fdiv fp ssxym (fsqrt fp (fmul fp ssxm ssym)) in
  fmul fp r
    (fsqrt fp
       (fdiv fp (f8 fp (IZR df))
          (fmul fp (fadd fp (fsub fp (f8 fp 1) r) (f8 fp eps))
                   (fadd fp (fadd fp (f8 fp 1) r) (f8 fp eps))))).

(** Lines 30-32: sample [i] of the sparse matrix as a dense vector. *)
Definition sample_row (n_features : nat) (data : list R)
  (indptr indices : list nat) (i : nat) : list R :=
  let row := zeros n_features in
  let s := nth i indptr 0%nat in
  let e := nth (i + 1) indptr 0%nat in
  scatter row (slice s e indices) (slice s e data).

(** [nb_ulm(n_samples, n_features, data, indptr, indices, net)], for
    arguments of the types of its compiled signature and a weight matrix
    with one row per feature ([np.cov] takes two vectors of one length).
    The compiled loops raise nothing: a cell whose arithmetic has no number
    holds an infinity or NaN. *)
Definition nb_ulm (fp : arith) (n_samples n_features : nat) (data : list R)
  (indptr indices : list nat) (net : ndarray) : farray :=
  let '(df, n_fsets) := (shape0 net, shape1 net) in
  let df := (Z.of_nat df - 2)%Z in
  let es := fzeros2 n_samples n_fsets in
  loop n_samples
    (fun i es =>
       let row := sample_row n_features data indptr indices i in
       loop n_fsets
         (fun j es =>
            let x := column j net in
            fset2 es i j (f4 fp (ulm_cell fp df x row)))
         es)
    es.

(** [scipy.stats.stats._ttest_finish(df, t, 'two-sided')] is library code:
    it returns [t] and [special.stdtr(df, -np.abs(t)) * 2], entry by
    entry. *)
Definition ttest_finish (fp : arith) (df : Z) (t : farray)
  : farray * farray :=
  (t, mk_farray (fcols t)
        (map (map (fun v => fmul fp (stdtr fp df (fneg (fabs v))) (f8 fp 2)))
             (frows t))).

(** [ulm(mat, net)], for a sparse float32 [mat] and a float32 array
    [net], the types that the signature of [nb_ulm] asks for. *)
Definition ulm (fp : arith) (mat : csr) (net : ndarray) : farray * farray :=
  let df := shape0 net in
  let df := (Z.of_nat df - 2)%Z in
  let '(n_samples, n_features) := cshape mat in
  let es := nb_ulm fp n_samples n_features (data mat) (indptr mat)
              (indices mat) net in
  let '(_, pvals) := ttest_finish fp df es in
  (es, pvals).

(** [ulm(mat, net)] on what [run_ulm] has at hand.  A dense [mat] has no
    attribute [indptr]; a sparse [net] is no float32 array, and [nb_ulm]
    has no definition for it. *)
Definition ulm_call (fp : arith) (mat net : matrix)
  : result (farray * farray) :=
  match mat, net with
  | Dense _, _ => Raise (AttributeError "indptr")
  | Sparse _, Sparse _ => Raise (TypeError (NoMatchingDefinition "nb_ulm"))
  | Sparse mat, Dense net => Ok (ulm fp mat net)
  end.

Definition show_nat (n : nat) : string :=
  NilEmpty.string_of_uint (Nat.to_uint n).

(** [run_ulm(mat, net, source='source', target='target', weight='weight',
    min_n=5, verbose=False, use_raw=True)].  The network is a frame of the
    caller's; between [rename_net] and [filt_min_n] the embedding reads the
    renamed frame as its list of records.  [match] hands its result back
    as [csr_matrix(regX)], and that is what [ulm] is called with. *)
Definition run_ulm (fp : arith) (mat : container) (net : ref)
  (source target : string) (weight : option string) (min_n : Z)
  (verbose use_raw : bool) : M (option (table * table)) :=
  '(m, r, c) <~
    lift (call extract_sig (extract_body fp) [VContainer mat]
            [("use_raw", VBool use_raw); ("verbose", VBool verbose)]) ;;
  net <~ rename_net net source target weight ;;
  d <~ deref net ;;
  net <~ lift (records d) ;;
  let net := filt_min_n c net min_n in
  '(sources, targets, net) <~ lift (get_net_mat net) ;;
  net <~
    lift (call match_sig match_body [VLabels c; VLabels targets; VArray net]
            []) ;;
  _ <~ (if verbose
        then print_stdout
               ("Running ulm on mat with " ++ show_nat (fst (mshape m))
                ++ " samples and " ++ show_nat (length c)
                ++ " targets for " ++ show_nat (shape1 net) ++ " sources.")
        else ret tt) ;;
  '(estimate, pvals) <~ lift (ulm_call fp m (Sparse (csr_matrix net))) ;;
  let estimate := mk_table estimate r sources "ulm_estimate" in
  let pvals := mk_table pvals r sources "ulm_pvals" in
  match mat with
  | CAnnData _ =>
      _ <~ set_obsm (tname estimate) estimate ;;
      _ <~ set_obsm (tname pvals) pvals ;;
      ret None
  | _ => ret (Some (estimate, pvals))
  end.

(** The quantities of the kernel in the words of the specification: the
    biased (divide-by-N) variance and covariance, Pearson's r and the
    t-statistic. *)
Definition biased_var (v : list R) : R :=
  mean (map (fun a => (a - mean v) * (a - mean v)) v).
Definition biased_cov (u v : list R) : R :=
  mean (map (fun p => (fst p - mean u) * (snd p - mean v)) (combine u v)).
Definition pearson (x y : list R) : R :=
  biased_cov x y / sqrt (biased_var x * biased_var y).
Definition t_stat (df : Z) (r : R) : R :=
  r * sqrt (IZR df / ((1 - r + eps) * (1 + r + eps))).

End MethodUlm.

Export MethodUlm.

(** ** Exact arithmetic *)

Module Exact.

(** The infinity of a sign, and [x * inf] for a number [x]. *)
Definition inf (negative : bool) : num := if negative then NInf else PInf.
Definition scale_inf (x : R) (negative : bool) : num :=
  if Req_dec_T x 0 then NaN
  else if Rlt_dec 0 x then inf negative else inf (negb negative).

Definition xadd (a b : num) : num :=
  match a, b with
  | NaN, _ | _, NaN => NaN
  | Fin x, Fin y => Fin (x + y)
  | PInf, NInf | NInf, PInf => NaN
  | PInf, _ | _, PInf => PInf
  | NInf, _ | _, NInf => NInf
  end.
Definition xsub (a b : num) : num := xadd a (fneg b).
Definition xmul (a b : num) : num :=
  match a, b with
  | NaN, _ | _, NaN => NaN
  | Fin x, Fin y => Fin (x * y)
  | Fin x, PInf | PInf, Fin x => scale_inf x false
  | Fin x, NInf | NInf, Fin x => scale_inf x true
  | PInf, PInf | NInf, NInf => PInf
  | PInf, NInf | NInf, PInf => NInf
  end.

(** Division: a number other than zero over zero is an infinity, zero over
    zero is NaN. *)
Definition xdiv (a b : num) : num :=
  match a, b with
  | NaN, _ | _, NaN => NaN
  | Fin x, Fin y => if Req_dec_T y 0 then scale_inf x false else Fin (x / y)
  | Fin _, _ => Fin 0
  | PInf, Fin y => if Rlt_dec y 0 then NInf else PInf
  | NInf, Fin y => if Rlt_dec y 0 then PInf else NInf
  | _, _ => NaN
  end.
Definition xsqrt (a : num) : num :=
  match a with
  | Fin x => if Rlt_dec x 0 then NaN else Fin (sqrt x)
  | PInf => PInf
  | _ => NaN
  end.

(** [np.cov(x, y, bias=bias).flat] without rounding: the products of the
    centred variables are summed and divided by [N - ddof], at least 0. *)
Definition cov (x y : list R) (bias : bool) : num * num * num * num :=
  let xm := center x in
  let ym := center y in
  let fact := Fin (Rmax (INR (length x) - (if bias then 0 else 1)) 0) in
  (xdiv (Fin (dot xm xm)) fact, xdiv (Fin (dot xm ym)) fact,
   xdiv (Fin (dot ym xm)) fact, xdiv (Fin (dot ym ym)) fact).

(** [stdtr] from a distribution function [cdf df] for every [df >= 1];
    [scipy.special.stdtr] is NaN for [df <= 0]. *)
Definition xstdtr (cdf : Z -> R -> R) (df : Z) (t : num) : num :=
  if (df <=? 0)%Z then NaN
  else match t with
       | Fin x => Fin (cdf df x)
       | PInf => Fin 1
       | NInf => Fin 0
       | NaN => NaN
       end.

(** The arithmetic that rounds nothing. *)
Definition ideal (cdf : Z -> R -> R) : arith :=
  mk_arith Fin (fun a => a) xadd xsub xmul xdiv xsqrt cov (xstdtr cdf)
           (fun _ v => v).

(** Case analysis on the comparisons of reals in a goal. *)
Ltac xcases :=
  repeat match goal with
         | |- context [Req_dec_T ?a ?b] => destruct (Req_dec_T a b)
         | |- context [Rlt_dec ?a ?b] => destruct (Rlt_dec a b)
         end;
  simpl; try reflexivity; try (exfalso; lra);
  try (f_equal; unfold Rdiv; ring).

End Exact.

Export Exact.

(** ** Changes of the inputs, to state how the results react *)

Module Change.

(** The weight matrix with the weights of regulator [j] negated. *)
Definition negate_column (j : nat) (net : ndarray) : ndarray :=
  mk_ndarray (ncols net)
    (map (fun row => set_nth j (- nth j row 0) row) (rows net)).

(** The order in which labels are sorted. *)
Definition label_le (a b : string) : Prop := String.leb a b = true.

(** The value of a pivot cell once NaN is replaced by 0. *)
Definition cell_value (net : list edge) (t s : string) : R :=
  match find (at_cell t s) net with
  | Some e => match weight e with Some w => w | None => 0 end
  | None => 0
  end.

(** Lines 34-56 of [extract]: the matrix, the sample labels and the feature
    labels that the input holds. *)
Definition container_parts (mat : container) (use_raw : bool)
  : result (matrix * list string * list string) :=
  match mat with
  | CList m r c => Ok (Sparse (as_csr m), r, c)
  | CFrame values idx cols => Ok (Sparse (csr_matrix values), idx, cols)
  | CAnnData a =>
      if use_raw then
        match raw a with
        | None =>
            Raise (ValueError "Received `use_raw=True`, but `mat.raw` is empty.")
        | Some (x, v) => Ok (x, obs_index a, v)
        end
      else Ok (Sparse (as_csr (X a)), obs_index a, var_index a)
  | COther =>
      Raise (ValueError bad_container)
  end.

(** Whether a matrix is a dense array. *)
Definition is_dense (m : matrix) : bool :=
  match m with Dense _ => true | Sparse _ => false end.

(** Row [i] of a matrix as a dense vector. *)
Definition dense_row (m : matrix) (i : nat) : list R :=
  match m with
  | Dense a => nth i (rows a) []
  | Sparse s => sample_row (snd (cshape s)) (data s) (indptr s) (indices s) i
  end.

(** A matrix with [n] columns: every row of a dense array has [n]
    entries; a row of a sparse matrix stores a column at most once, and no
    column beyond the [n]-th. *)
Definition wf_matrix (n : nat) (m : matrix) : Prop :=
  match m with
  | Dense a => wf_ndarray a /\ ncols a = n
  | Sparse s =>
      snd (cshape s) = n
      /\ forall i, (i < fst (cshape s))%nat ->
                   NoDup (map fst (stored s i))
                   /\ Forall (fun jv => (fst jv < n)%nat) (stored s i)
  end.

(** Positions ordered by the label they hold in [c]. *)
Definition key_le (c : list string) (a b : nat) : Prop :=
  label_le (nth a c "") (nth b c "").

(** The column labels that line 161 of [rename_net] gives the table when a
    weight column is named. *)
Definition renamed_labels_named (source target weight : string)
  (d : DataFrame) : list string :=
  map (fun l =>
         dict_get l (dict_display [(source, "source"); (target, "target");
                                   (weight, "weight")]) l)
      (labels d).

(** The covariance entry [ssxym] that line 40 of the kernel takes from
    [np.cov], without rounding. *)
Definition ssxym (x row : list R) : R :=
  let '(_, c, _, _) := cov_bias x row in c.

End Change.

Export Change.

(** ** Sample inputs *)

Module Sample.

(** A network in which the pair (G1, T1) has two records. *)
Definition net_dup : list edge :=
  [mk_edge "T1" "G1" (Some 1); mk_edge "T1" "G1" (Some 2)].

(** Two regulators over three targets, no pair repeated. *)
Definition net_small : list edge :=
  [mk_edge "T2" "G3" (Some 4); mk_edge "T1" "G1" (Some 1);
   mk_edge "T1" "G2" (Some 2)].

(** A pivoted network: targets G1, G3 and their weights for two regulators. *)
Definition targets13 : list string := ["G1"; "G3"].
Definition weights13 : ndarray := mk_ndarray 2 [[1; 2]; [3; 4]].
Definition features123 : list string := ["G1"; "G2"; "G3"].
Definition no_matrix : csr := mk_csr (0%nat, 0%nat) [] [0%nat] [].

(** One record whose target is not a feature of the data. *)
Definition net_unresolved : list edge := [mk_edge "T1" "G9" (Some 1)].

(** A caller's table with columns tf and gene, and a world that holds it. *)
Definition tf_gene : DataFrame :=
  mk_frame [0%Z; 1%Z]
    [("tf", [CStr "T1"; CStr "T2"]); ("gene", [CStr "G1"; CStr "G2"])].
Definition world0 : world := mk_world [tf_gene] [] [] [].

Definition notice : string :=
  "weight column not provided, will be set to 1s.".

(** One regulator over three features; the third feature, G3, is not in the
    network, so its weight row is zero. *)
Definition weights3 : ndarray := mk_ndarray 1 [[1]; [2]; [0]].

(** One sample over the three features: (1, 2, 0) and (1, 2, 2).  The two
    differ in the observed value of G3 only. *)
Definition mat_a : csr := mk_csr (1%nat, 3%nat) [1; 2] [0%nat; 2%nat] [0%nat; 1%nat].
Definition mat_b : csr :=
  mk_csr (1%nat, 3%nat) [1; 2; 2] [0%nat; 3%nat] [0%nat; 1%nat; 2%nat].

(** Two features only: one regulator and one sample. *)
Definition weights2 : ndarray := mk_ndarray 1 [[1]; [2]].
Definition mat2 : csr := mk_csr (1%nat, 2%nat) [1; 3] [0%nat; 2%nat] [0%nat; 1%nat].

(** Student's t distribution function with one degree of freedom (the
    Cauchy distribution). *)
Definition student1 (df : Z) (x : R) : R := / 2 + atan x / PI.

(** A weight matrix with fewer rows than [targets13] has labels. *)
Definition weights_short : ndarray := mk_ndarray 2 [[1; 2]].

(** A list input with its features out of order. *)
Definition unsorted_input : container :=
  CList (Dense (mk_ndarray 2 [[10; 20]])) ["S1"] ["G2"; "G1"].

(** A caller's table with a column of weights. *)
Definition tf_gene_mor : DataFrame :=
  mk_frame [0%Z; 1%Z]
    [("gene", [CStr "G1"; CStr "G2"]); ("mor", [CNum 1; CNum 2]);
     ("tf", [CStr "T1"; CStr "T2"])].
Definition world1 : world := mk_world [tf_gene_mor] [] [] [].

(** A caller's table that has a column named source besides the columns
    tf and gene. *)
Definition source_tf_gene : DataFrame :=
  mk_frame [0%Z]
    [("source", [CStr "db"]); ("tf", [CStr "T1"]); ("gene", [CStr "G1"])].
Definition world2 : world := mk_world [source_tf_gene] [] [] [].

(** Two regulators over three features, and two samples: (1, 2, 0) and
    (1, 2, 2). *)
Definition weights32 : ndarray := mk_ndarray 2 [[1; 0]; [2; 1]; [0; 2]].
Definition mat_ab : csr :=
  mk_csr (2%nat, 3%nat) [1; 2; 1; 2; 2] [0%nat; 2%nat; 5%nat]
         [0%nat; 1%nat; 0%nat; 1%nat; 2%nat].

(** One sample whose three features are all zero. *)
Definition mat_zero : csr := mk_csr (1%nat, 3%nat) [] [0%nat; 0%nat] [].

(** An AnnData object whose [raw] holds a dense array. *)
Definition adata_raw_dense : AnnData :=
  mk_anndata (Some (Dense (mk_ndarray 2 [[10; 20]]), ["G2"; "G1"]))
             (Dense (mk_ndarray 2 [[10; 20]])) ["G2"; "G1"] ["S1"].

End Sample.

(** * Properties *)

(** ** The entry point *)

(** Claim C2.  Whatever the input container, the network and the options,
    [run_ulm] raises [TypeError] at its first statement and leaves the
    caller's objects as they were: [extract] is called with a keyword
    [verbose] that its signature lacks.  The later call of [match] with
    three positional arguments cannot bind either, as [match] has four
    parameters without default. *)
Theorem run_ulm_raises_TypeError :
  (forall fp mat net source target weight min_n verbose use_raw w,
      run_ulm fp mat net source target weight min_n verbose use_raw w
      = (Raise (TypeError (UnexpectedKeyword "extract" "verbose")), w))
  /\ (forall fp mat use_raw verbose,
         call extract_sig (extract_body fp) [VContainer mat]
              [("use_raw", VBool use_raw); ("verbose", VBool verbose)]
         = Raise (TypeError (UnexpectedKeyword "extract" "verbose")))
  /\ (forall a b c,
         call match_sig match_body [a; b; c] []
         = Raise (TypeError (MissingPositional "match" ["net"]))).
Proof.
  split; [| split]; intros; reflexivity.
Qed.

(** ** Lists and loops *)

Lemma set_nth_length {A : Type} (i : nat) (v : A) (a : list A) :
  length (set_nth i v a) = length a.
Proof.
  revert i; induction a as [|x a IH]; intros [|i]; simpl; auto.
Qed.

Lemma set_nth_app_here {A : Type} (pre : list A) (v x : A) (post : list A) :
  set_nth (length pre) v (pre ++ x :: post) = pre ++ v :: post.
Proof.
  induction pre as [|y pre IH]; simpl; [reflexivity | now rewrite IH].
Qed.

Lemma nth_set_nth_same {A : Type} (i : nat) (v d : A) (a : list A) :
  (i < length a)%nat -> nth i (set_nth i v a) d = v.
Proof.
  revert i; induction a as [|x a IH]; intros [|i] H; simpl in *;
    try lia; auto.
  apply IH; lia.
Qed.

Lemma nth_set_nth_other {A : Type} (i k : nat) (v d : A) (a : list A) :
  i <> k -> nth k (set_nth i v a) d = nth k a d.
Proof.
  revert i k; induction a as [|x a IH]; intros [|i] [|k] H; simpl;
    try reflexivity; try congruence.
  apply IH; congruence.
Qed.

Lemma find_label_none (s : string) (a : list string) :
  find_label s a = None <-> ~ In s a.
Proof.
  induction a as [|t a IH]; simpl.
  - tauto.
  - destruct (String.eqb_spec s t) as [->|Hne].
    + split; [discriminate | intros H; exfalso; apply H; now left].
    + destruct (find_label s a) eqn:E.
      * split; [discriminate |].
        intros H; exfalso; apply H; right.
        destruct (in_dec string_dec s a) as [Hin|Hnin]; [exact Hin|].
        apply IH in Hnin; discriminate.
      * split; [| reflexivity].
        intros _ [Heq|Hin]; [congruence |].
        now apply IH.
Qed.

Lemma find_label_first (s : string) (a : list string) (j : nat) :
  (j < length a)%nat -> nth j a "" = s ->
  (forall j', (j' < j)%nat -> nth j' a "" <> s) ->
  find_label s a = Some j.
Proof.
  revert j; induction a as [|t a IH]; intros j Hj Hs Hfirst; simpl in *.
  - lia.
  - destruct j as [|j].
    + subst t. now rewrite String.eqb_refl.
    + destruct (String.eqb_spec s t) as [->|Hne].
      * exfalso. apply (Hfirst 0%nat); [lia | reflexivity].
      * rewrite (IH j); [reflexivity | lia | exact Hs |].
        intros j' Hj'. apply (Hfirst (S j')). lia.
Qed.

Lemma find_label_some (s : string) (a : list string) (j : nat) :
  find_label s a = Some j ->
  (j < length a)%nat /\ nth j a "" = s
  /\ forall j', (j' < j)%nat -> nth j' a "" <> s.
Proof.
  revert j; induction a as [|t a IH]; intros j H; simpl in *.
  - discriminate.
  - destruct (String.eqb_spec s t) as [->|Hne].
    + injection H as <-. repeat split; [lia | intros j' Hj'; lia].
    + destruct (find_label s a) as [p|] eqn:E; [| discriminate].
      injection H as <-.
      destruct (IH p eq_refl) as (Hp & Hn & Hf).
      repeat split; [lia | exact Hn |].
      intros [|j'] Hj'; [now intros Heq; apply Hne | apply Hf; lia].
Qed.

(** ** Re-indexing the network: [match] *)

(** The inner loop finds the row of the first equal label. *)
Lemma match_inner_find (net : ndarray) (ci : string) (r : list string)
  (j : nat) (cur : list R) :
  match_inner net ci r j cur =
  match find_label ci r with
  | Some p =>
      match nth_error (rows net) (j + p) with
      | Some row => Ok row
      | None => Raise IndexError
      end
  | None => Ok cur
  end.
Proof.
  revert j; induction r as [|rj r IH]; intros j; simpl.
  - reflexivity.
  - destruct (String.eqb ci rj).
    + now rewrite Nat.add_0_r.
    + rewrite IH. destruct (find_label ci r); [| reflexivity].
      now replace (S j + n)%nat with (j + S n)%nat by lia.
Qed.

(** The outer loop fills the rows one after the other. *)
Lemma match_loop (net : ndarray) (r : list string) (m : nat)
  (cs pre : list string) (done : list (list R)) :
  length done = length pre ->
  for_each (seq (length pre) (length cs))
    (fun i regX =>
       row <- match_inner net (nth i (pre ++ cs) "") r 0
                (nth i (rows regX) []) ;;
       Ok (mk_ndarray (ncols regX) (set_nth i row (rows regX))))
    (mk_ndarray m (done ++ repeat (zeros m) (length cs)))
  = rs <- mapM (fun ci => match_inner net ci r 0 (zeros m)) cs ;;
    Ok (mk_ndarray m (done ++ rs)).
Proof.
  revert pre done; induction cs as [|ci cs IH]; intros pre done Hlen.
  - simpl. now rewrite !app_nil_r.
  - cbn [length seq for_each repeat mapM rows ncols].
    rewrite nth_middle. rewrite <- Hlen. rewrite nth_middle.
    destruct (match_inner net ci r 0 (zeros m)) as [row|e];
      cbn [bind]; [| reflexivity].
    cbn [rows ncols]. rewrite set_nth_app_here.
    replace (pre ++ ci :: cs) with ((pre ++ [ci]) ++ cs)
      by now rewrite <- app_assoc.
    replace (done ++ row :: repeat (zeros m) (length cs))
      with ((done ++ [row]) ++ repeat (zeros m) (length cs))
      by now rewrite <- app_assoc.
    replace (S (length done)) with (length (pre ++ [ci]))
      by (rewrite length_app; simpl; lia).
    rewrite IH by (rewrite !length_app; simpl; lia).
    destruct (mapM _ cs); cbn [bind]; [| reflexivity].
    now rewrite <- app_assoc.
Qed.

Lemma match_as_map (mat : csr) (c r : list string) (net : ndarray) :
  match_ mat c r net
  = rs <- mapM (fun ci => match_inner net ci r 0 (zeros (shape1 net))) c ;;
    Ok (mk_ndarray (shape1 net) rs).
Proof.
  unfold match_, for_range, zeros2.
  exact (match_loop net r (shape1 net) c [] [] eq_refl).
Qed.

Lemma mapM_ok {A B : Type} (f : A -> result B) (g : A -> B) (xs : list A) :
  (forall x, In x xs -> f x = Ok (g x)) -> mapM f xs = Ok (map g xs).
Proof.
  induction xs as [|x xs IH]; intros H; simpl.
  - reflexivity.
  - rewrite (H x) by now left. simpl.
    rewrite IH by (intros y Hy; apply H; now right). reflexivity.
Qed.

(** Claim C5.  For a pivoted network (one label in [r] per row of [net]),
    [match] returns a matrix with one row per feature label, in the order of
    the feature labels and as wide as [net]: row [i] is the weight row of
    the target that carries the same label as feature [i] (the first such
    target, should a label repeat), and is all zeros when no target carries
    that label. *)
Theorem match_rows (mat : csr) (c r : list string) (net : ndarray) :
  length r = shape0 net ->
  exists regX,
    match_ mat c r net = Ok regX
    /\ shape0 regX = length c
    /\ shape1 regX = shape1 net
    /\ (forall i j,
           (i < length c)%nat -> (j < length r)%nat ->
           nth j r "" = nth i c "" ->
           (forall j', (j' < j)%nat -> nth j' r "" <> nth i c "") ->
           nth i (rows regX) [] = nth j (rows net) [])
    /\ (forall i,
           (i < length c)%nat -> ~ In (nth i c "") r ->
           nth i (rows regX) [] = zeros (shape1 net)).
Proof.
  intros Hlen.
  set (g := fun ci => match find_label ci r with
                      | Some p => nth p (rows net) []
                      | None => zeros (shape1 net)
                      end).
  exists (mk_ndarray (shape1 net) (map g c)).
  assert (Hmap : mapM (fun ci => match_inner net ci r 0 (zeros (shape1 net))) c
                 = Ok (map g c)).
  { apply mapM_ok. intros ci _. rewrite match_inner_find. unfold g.
    destruct (find_label ci r) as [p|] eqn:E; [| reflexivity].
    apply find_label_some in E. destruct E as (Hp & _).
    simpl. rewrite (nth_error_nth' (rows net) []); [reflexivity |].
    unfold shape0 in Hlen. lia. }
  split; [| split; [| split; [| split]]].
  - rewrite match_as_map, Hmap. reflexivity.
  - unfold shape0; simpl. apply length_map.
  - reflexivity.
  - intros i j Hi Hj Heq Hfirst. simpl.
    rewrite (nth_indep _ [] (g "")) by now rewrite length_map.
    rewrite map_nth. unfold g.
    now rewrite (find_label_first _ _ j Hj Heq Hfirst).
  - intros i Hi Hnin. simpl.
    rewrite (nth_indep _ [] (g "")) by now rewrite length_map.
    rewrite map_nth. unfold g.
    apply find_label_none in Hnin. now rewrite Hnin.
Qed.

Lemma match_rows_witness :
  exists regX,
    match_ Sample.no_matrix Sample.features123 Sample.targets13
      Sample.weights13 = Ok regX
    /\ nth 0 (rows regX) [] = [1; 2]
    /\ nth 1 (rows regX) [] = zeros 2.
Proof.
  destruct (match_rows Sample.no_matrix Sample.features123 Sample.targets13
              Sample.weights13 eq_refl) as (regX & H & _ & _ & Hrow & Hzero).
  exists regX. split; [exact H | split].
  - apply (Hrow 0%nat 0%nat); simpl; try lia; reflexivity.
  - apply (Hzero 1%nat); simpl; [lia |].
    intros [H1|[H1|[]]]; discriminate.
Defined.

(** ** Filtering regulators: [filt_min_n] *)

Lemma mask_select_map {A : Type} (p : A -> bool) (a : list A) :
  mask_select (map p a) a = filter p a.
Proof.
  induction a as [|x a IH]; simpl; [reflexivity |].
  rewrite IH. reflexivity.
Qed.

Lemma mask_select_map2 {A B : Type} (p : B -> bool) (g : A -> B)
  (a : list A) :
  mask_select (map p (map g a)) a = filter (fun x => p (g x)) a.
Proof.
  rewrite map_map. apply (mask_select_map (fun x => p (g x))).
Qed.

Lemma insert_sorted_in (s x : string) (l : list string) :
  In x (insert_sorted s l) <-> x = s \/ In x l.
Proof.
  induction l as [|t l IH]; simpl.
  - intuition congruence.
  - destruct (String.leb s t); simpl; rewrite ?IH; intuition congruence.
Qed.

Lemma sort_in (x : string) (l : list string) : In x (sort l) <-> In x l.
Proof.
  induction l as [|t l IH]; simpl; [tauto |].
  rewrite insert_sorted_in, IH. intuition congruence.
Qed.

Lemma unique_in (x : string) (l : list string) : In x (unique l) <-> In x l.
Proof.
  unfold unique. rewrite sort_in. apply nodup_In.
Qed.

Lemma isin1_in (test : list string) (s : string) :
  isin1 test s = true <-> In s test.
Proof.
  unfold isin1. rewrite existsb_exists. split.
  - intros (x & Hin & Heq). apply String.eqb_eq in Heq. now subst.
  - intros Hin. exists s. split; [exact Hin | apply String.eqb_refl].
Qed.

Lemma count_source_filter (p : edge -> bool) (net : list edge) (s : string) :
  count_occ string_dec (map source (filter p net)) s
  = length (filter (fun e => String.eqb (source e) s && p e) net).
Proof.
  induction net as [|e net IH]; simpl; [reflexivity |].
  destruct (p e) eqn:Hp; simpl.
  - destruct (string_dec (source e) s) as [Heq|Hne].
    + rewrite Heq, String.eqb_refl. simpl. now rewrite IH.
    + apply String.eqb_neq in Hne. rewrite Hne. simpl. exact IH.
  - rewrite andb_false_r. exact IH.
Qed.

(** The test that [filt_min_n] applies to the regulator of a record. *)
Lemma filt_min_n_filter (c : list string) (net : list edge) (min_n : Z) :
  filt_min_n c net min_n
  = filter (fun e =>
              (1 <=? n_resolved c net (source e))%nat
              && (min_n <=? Z.of_nat (n_resolved c net (source e)))%Z) net.
Proof.
  unfold filt_min_n, unique_counts, isin.
  rewrite (mask_select_map2 (isin1 c) target).
  rewrite (mask_select_map2 (fun n => (min_n <=? Z.of_nat n)%Z)).
  rewrite (mask_select_map2 (isin1 _) source).
  apply filter_ext. intros e.
  set (a := map source (filter (fun x => isin1 c (target x)) net)).
  assert (Hcount : forall s, count_occ string_dec a s = n_resolved c net s).
  { intros s. unfold a, n_resolved. apply count_source_filter. }
  apply eq_true_iff_eq.
  rewrite isin1_in, filter_In, unique_in, andb_true_iff, Hcount.
  rewrite (count_occ_In string_dec), Hcount, Nat.leb_le. unfold gt. lia.
Qed.

Lemma get_net_mat_sources (net : list edge) (sources targets : list string)
  (X : ndarray) :
  get_net_mat net = Ok (sources, targets, X) ->
  sources = unique (map source net) /\ targets = unique (map target net).
Proof.
  unfold get_net_mat, pivot.
  destruct (has_dup_pair net); simpl; [discriminate |].
  intros H. injection H as <- <- _. split; reflexivity.
Qed.

(** Claim C4, as the code has it.  [filt_min_n] keeps, in their order, the
    records whose regulator has at least [max 1 min_n] records with a target
    among the feature labels, and removes all others; so for [min_n >= 1]
    it removes exactly the records of regulators with fewer than [min_n]
    such records.  A regulator below that count is not on the regulator axis
    of the pivot of the result. *)
Theorem filt_min_n_law (c : list string) (net : list edge) (min_n : Z) :
  filt_min_n c net min_n
  = filter (fun e =>
              (Z.max 1 min_n <=? Z.of_nat (n_resolved c net (source e)))%Z)
           net
  /\ (forall s sources targets X,
         (Z.of_nat (n_resolved c net s) < Z.max 1 min_n)%Z ->
         get_net_mat (filt_min_n c net min_n) = Ok (sources, targets, X) ->
         ~ In s sources).
Proof.
  assert (Hfilter :
    filt_min_n c net min_n
    = filter (fun e =>
                (Z.max 1 min_n <=? Z.of_nat (n_resolved c net (source e)))%Z)
             net).
  { rewrite filt_min_n_filter. apply filter_ext. intros e.
    apply eq_true_iff_eq.
    rewrite andb_true_iff, Nat.leb_le, !Z.leb_le. lia. }
  split; [exact Hfilter |].
  intros s sources targets X Hlow Hmat Hin.
  apply get_net_mat_sources in Hmat. destruct Hmat as [-> _].
  rewrite unique_in, Hfilter, in_map_iff in Hin.
  destruct Hin as (e & Hs & He). apply filter_In in He.
  destruct He as [_ He]. apply Z.leb_le in He. subst s. lia.
Qed.

Lemma filt_min_n_law_witness :
  exists sources targets X,
    get_net_mat (filt_min_n Sample.features123 Sample.net_small 2)
    = Ok (sources, targets, X)
    /\ ~ In "T2" sources.
Proof.
  exists ["T1"], ["G1"; "G2"], (mk_ndarray 1 [[1]; [2]]).
  split; [reflexivity |].
  apply (proj2 (filt_min_n_law Sample.features123 Sample.net_small 2)
           "T2" ["T1"] ["G1"; "G2"] (mk_ndarray 1 [[1]; [2]]));
    [vm_compute; reflexivity | reflexivity].
Defined.

(** Claim C4 as stated fails for [min_n = 0]: regulator T1 has no record
    with a known target, which is not fewer than 0, and its record is
    removed all the same. *)
Lemma filt_min_n_zero_drops_unresolved :
  (Z.of_nat (n_resolved [] Sample.net_unresolved "T1") <? 0)%Z = false
  /\ filt_min_n [] Sample.net_unresolved 0 = []
  /\ filt_min_n [] Sample.net_unresolved 0
     <> filter (fun e =>
                  negb (Z.of_nat (n_resolved [] Sample.net_unresolved
                                    (source e)) <? 0)%Z)
               Sample.net_unresolved.
Proof.
  split; [reflexivity | split; [reflexivity | discriminate]].
Qed.

(** ** Pivoting the network: [get_net_mat] *)

Lemma at_cell_true (t s : string) (e : edge) :
  at_cell t s e = true <-> target e = t /\ source e = s.
Proof.
  unfold at_cell. now rewrite andb_true_iff, !String.eqb_eq.
Qed.

(** Without a repeated pair, the record of a pair is found by [find]. *)
Lemma find_at_cell (net : list edge) (e : edge) :
  has_dup_pair net = false -> In e net ->
  find (at_cell (target e) (source e)) net = Some e.
Proof.
  induction net as [|e0 net IH]; intros Hdup Hin; simpl in *.
  - contradiction.
  - apply orb_false_iff in Hdup. destruct Hdup as [Hex Hdup].
    destruct (at_cell (target e) (source e) e0) eqn:Hcell.
    + destruct Hin as [->|Hin]; [reflexivity |].
      apply at_cell_true in Hcell. destruct Hcell as [Ht Hs].
      exfalso. rewrite <- not_true_iff_false in Hex. apply Hex.
      apply existsb_exists. exists e. split; [exact Hin |].
      apply at_cell_true. now split.
    + destruct Hin as [->|Hin]; [| now apply IH].
      exfalso. rewrite <- not_true_iff_false in Hcell. apply Hcell.
      apply at_cell_true. now split.
Qed.

Lemma nth_map_in {A B : Type} (g : A -> B) (l : list A) (i : nat)
  (da : A) (db : B) :
  (i < length l)%nat -> nth i (map g l) db = g (nth i l da).
Proof.
  intros Hi. rewrite (nth_indep _ db (g da)) by now rewrite length_map.
  apply map_nth.
Qed.

(** Claim C3, as the code has it.  On a network in which some (target,
    regulator) pair has more than one record the pivot raises [ValueError].
    On a network without such a pair [get_net_mat] succeeds: the cell of a
    recorded pair holds the weight of its record (0.0 for a NaN weight) and
    every cell without a record holds 0.0. *)
Theorem get_net_mat_cells (net : list edge) :
  (has_dup_pair net = true ->
   get_net_mat net
   = Raise (ValueError "Index contains duplicate entries, cannot reshape"))
  /\ (has_dup_pair net = false ->
      exists sources targets X,
        get_net_mat net = Ok (sources, targets, X)
        /\ shape0 X = length targets
        /\ shape1 X = length sources
        /\ (forall e, In e net -> In (target e) targets /\ In (source e) sources)
        /\ (forall e i j,
               In e net ->
               (i < length targets)%nat -> (j < length sources)%nat ->
               nth i targets "" = target e -> nth j sources "" = source e ->
               get2 X i j = match weight e with Some w => w | None => 0 end)
        /\ (forall i j,
               (i < length targets)%nat -> (j < length sources)%nat ->
               (forall e, In e net ->
                          ~ (target e = nth i targets ""
                             /\ source e = nth j sources "")) ->
               get2 X i j = 0)).
Proof.
  split; intros Hdup; unfold get_net_mat, pivot; rewrite Hdup; simpl.
  - reflexivity.
  - do 3 eexists. split; [reflexivity |].
    split; [unfold shape0; simpl; now rewrite !length_map |].
    split; [reflexivity |].
    split; [| split].
    + intros e He. rewrite !unique_in. split; apply in_map; exact He.
    + intros e i j He Hi Hj Ht Hs. unfold get2; simpl.
      rewrite map_map.
      rewrite (nth_map_in _ _ i "" []) by exact Hi.
      rewrite map_map.
      rewrite (nth_map_in _ _ j "" 0) by exact Hj.
      rewrite Ht, Hs, (find_at_cell net e Hdup He). reflexivity.
    + intros i j Hi Hj Hnone. unfold get2; simpl.
      rewrite map_map.
      rewrite (nth_map_in _ _ i "" []) by exact Hi.
      rewrite map_map.
      rewrite (nth_map_in _ _ j "" 0) by exact Hj.
      destruct (find _ net) as [e|] eqn:E; [| reflexivity].
      apply find_some in E. destruct E as [He Hcell].
      apply at_cell_true in Hcell. exfalso. now apply (Hnone e He).
Qed.

Lemma get_net_mat_cells_witness :
  get_net_mat Sample.net_dup
  = Raise (ValueError "Index contains duplicate entries, cannot reshape")
  /\ exists sources targets X,
       get_net_mat Sample.net_small = Ok (sources, targets, X)
       /\ shape0 X = length targets.
Proof.
  split.
  - apply (proj1 (get_net_mat_cells Sample.net_dup)). reflexivity.
  - destruct (proj2 (get_net_mat_cells Sample.net_small) eq_refl)
      as (sources & targets & X & H & H0 & _).
    exists sources, targets, X. split; [exact H | exact H0].
Defined.

(** Claim C3 as stated fails: with the pair (G1, T1) recorded twice the
    pivot does not succeed, so no cell holds the last weight. *)
Lemma get_net_mat_duplicate_raises :
  has_dup_pair Sample.net_dup = true
  /\ get_net_mat Sample.net_dup
     = Raise (ValueError "Index contains duplicate entries, cannot reshape")
  /\ forall sources targets X,
       get_net_mat Sample.net_dup <> Ok (sources, targets, X).
Proof.
  split; [reflexivity | split; [reflexivity | discriminate]].
Qed.

(** ** Normalizing the network table: [rename_net] *)

Lemma nth_error_snoc_old {A : Type} (l : list A) (x : A) (k : nat) (d : A) :
  nth_error l k = Some d -> nth_error (l ++ [x]) k = Some d.
Proof.
  intros H. rewrite nth_error_app1; [exact H |].
  apply nth_error_Some. congruence.
Qed.

Lemma nth_error_set_nth_other {A : Type} (l : list A) (i k : nat) (v : A) :
  i <> k -> nth_error (set_nth i v l) k = nth_error l k.
Proof.
  revert i k; induction l as [|x l IH]; intros [|i] [|k] H; simpl;
    try reflexivity; try congruence.
  apply IH; congruence.
Qed.

Lemma find_column_set_column (name : string) (col : list cell)
  (cs : list (string * list cell)) :
  find_column name (set_column name col cs) = Some col.
Proof.
  induction cs as [|[n c] cs IH]; simpl.
  - now rewrite String.eqb_refl.
  - destruct (String.eqb n name) eqn:E; simpl; rewrite E; [reflexivity | exact IH].
Qed.

Lemma dict_get_set (k k' v dflt : string) (d : list (string * string)) :
  dict_get k (dict_set k' v d) dflt
  = if String.eqb k' k then v else dict_get k d dflt.
Proof.
  induction d as [|[k0 v0] d IH]; simpl.
  - reflexivity.
  - destruct (String.eqb_spec k0 k') as [->|Hne]; simpl.
    + destruct (String.eqb k' k); reflexivity.
    + rewrite IH. destruct (String.eqb_spec k0 k) as [->|Hne'].
      * apply String.eqb_neq in Hne. rewrite String.eqb_sym in Hne.
        rewrite Hne. reflexivity.
      * reflexivity.
Qed.

(** The mapper of line 161 sends a label to "weight" only from "weight". *)
Lemma mapper_weight (source target l : string) :
  dict_get l (dict_display [(source, "source"); (target, "target");
                            ("weight", "weight")]) l = "weight"
  <-> l = "weight".
Proof.
  unfold dict_display; cbn [fold_left fst snd].
  rewrite !dict_get_set. cbn [dict_get].
  destruct (String.eqb_spec "weight" l) as [<-|Hne]; [tauto |].
  destruct (String.eqb target l);
    [split; intros H; [discriminate H | congruence] |].
  destruct (String.eqb source l);
    [split; intros H; [discriminate H | congruence] |].
  tauto.
Qed.

Lemma find_column_renamed (f : string -> string)
  (cs : list (string * list cell)) :
  (forall l, f l = "weight" <-> l = "weight") ->
  find_column "weight" (map (fun nc => (f (fst nc), snd nc)) cs)
  = find_column "weight" cs.
Proof.
  intros Hf. induction cs as [|[n c] cs IH]; simpl; [reflexivity |].
  rewrite IH.
  destruct (String.eqb_spec n "weight") as [->|Hne].
  - rewrite (proj2 (Hf "weight") eq_refl). reflexivity.
  - destruct (String.eqb_spec (f n) "weight") as [Heq|_]; [| reflexivity].
    exfalso. apply Hne. apply (proj1 (Hf n)). exact Heq.
Qed.


(** Running the primitives of the store. *)
Lemma mbind_ok {A B : Type} (m : M A) (k : A -> M B) (w w' : world) (a : A) :
  m w = (Ok a, w') -> mbind m k w = k a w'.
Proof. intros H. unfold mbind. now rewrite H. Qed.

Lemma mbind_raise {A B : Type} (m : M A) (k : A -> M B) (w w' : world)
  (e : exn) :
  m w = (Raise e, w') -> mbind m k w = (Raise e, w').
Proof. intros H. unfold mbind. now rewrite H. Qed.

Lemma deref_run (w : world) (r : ref) (d : DataFrame) :
  nth_error (frames w) r = Some d -> deref r w = (Ok d, w).
Proof. intros H. unfold deref. now rewrite H. Qed.

Lemma deref_dangling (w : world) (r : ref) :
  nth_error (frames w) r = None ->
  deref r w = (Raise (BadOperand "dangling reference"), w).
Proof. intros H. unfold deref. now rewrite H. Qed.

Lemma copy_run (w : world) (r : ref) (d : DataFrame) :
  nth_error (frames w) r = Some d ->
  copy r w = (Ok (length (frames w)),
              mk_world (frames w ++ [d]) (stderr w) (stdout w) (obsm w)).
Proof.
  intros H. unfold copy. now rewrite (mbind_ok _ _ w w d (deref_run w r d H)).
Qed.

Lemma setitem_scalar_run (w : world) (r : ref) (d : DataFrame)
  (name : string) (v : cell) :
  nth_error (frames w) r = Some d ->
  setitem_scalar r name v w
  = (Ok tt,
     mk_world
       (set_nth r (mk_frame (index d)
                     (set_column name (repeat v (length (index d)))
                        (columns d))) (frames w))
       (stderr w) (stdout w) (obsm w)).
Proof.
  intros H. unfold setitem_scalar.
  now rewrite (mbind_ok _ _ w w d (deref_run w r d H)).
Qed.

Lemma rename_run (w : world) (r : ref) (d : DataFrame)
  (mapper : list (string * string)) :
  nth_error (frames w) r = Some d ->
  rename r mapper w
  = (Ok (length (frames w)),
     mk_world
       (frames w
        ++ [mk_frame (index d)
              (map (fun nc => (dict_get (fst nc) mapper (fst nc), snd nc))
                 (columns d))])
       (stderr w) (stdout w) (obsm w)).
Proof.
  intros H. unfold rename.
  now rewrite (mbind_ok _ _ w w d (deref_run w r d H)).
Qed.

Lemma reindex_run (w : world) (r : ref) (d : DataFrame) (names : list string) :
  nth_error (frames w) r = Some d ->
  reindex r names w
  = if has_dup (labels d)
    then (Raise (ValueError "cannot reindex on an axis with duplicate labels"),
          w)
    else (Ok (length (frames w)),
          mk_world
            (frames w
             ++ [mk_frame (index d)
                   (map (fun n =>
                           (n, match find_column n (columns d) with
                               | Some c => c
                               | None => repeat CNaN (length (index d))
                               end)) names)])
            (stderr w) (stdout w) (obsm w)).
Proof.
  intros H. unfold reindex.
  rewrite (mbind_ok _ _ w w d (deref_run w r d H)).
  destruct (has_dup (labels d)); reflexivity.
Qed.

Lemma nth_error_last {A : Type} (l : list A) (x : A) :
  nth_error (l ++ [x]) (length l) = Some x.
Proof.
  rewrite nth_error_app2 by lia. now rewrite Nat.sub_diag.
Qed.

Lemma nth_error_last2 {A : Type} (l : list A) (x y : A) :
  nth_error (l ++ [x; y]) (S (length l)) = Some y.
Proof.
  rewrite nth_error_app2 by lia.
  replace (S (length l) - length l)%nat with 1%nat by lia. reflexivity.
Qed.

(** Lines 160-165: renaming and reordering add two frames or, when the
    renamed labels repeat, one frame and a [ValueError]. *)
Lemma rename_reindex_run (w : world) (r : ref) (d : DataFrame)
  (mapper : list (string * string)) :
  nth_error (frames w) r = Some d ->
  let d2 := mk_frame (index d)
              (map (fun nc => (dict_get (fst nc) mapper (fst nc), snd nc))
                 (columns d)) in
  let d3 := mk_frame (index d)
              (map (fun n =>
                      (n, match find_column n (columns d2) with
                          | Some c => c
                          | None => repeat CNaN (length (index d))
                          end)) ["source"; "target"; "weight"]) in
  (net <~ rename r mapper ;;
   net <~ reindex net ["source"; "target"; "weight"] ;;
   ret net) w
  = if has_dup (labels d2)
    then (Raise (ValueError "cannot reindex on an axis with duplicate labels"),
          mk_world (frames w ++ [d2]) (stderr w) (stdout w) (obsm w))
    else (Ok (S (length (frames w))),
          mk_world (frames w ++ [d2; d3]) (stderr w) (stdout w) (obsm w)).
Proof.
  intros H d2 d3.
  rewrite (mbind_ok _ _ _ _ _ (rename_run w r d mapper H)).
  fold d2.
  set (w2 := mk_world (frames w ++ [d2]) (stderr w) (stdout w) (obsm w)).
  assert (H2 : nth_error (frames w2) (length (frames w)) = Some d2)
    by apply nth_error_last.
  unfold mbind at 1.
  rewrite (reindex_run w2 _ d2 _ H2).
  destruct (has_dup (labels d2)); [reflexivity |].
  unfold ret, w2; cbn [frames stderr stdout obsm index].
  rewrite length_app, <- app_assoc. cbn [length app].
  now rewrite Nat.add_1_r.
Qed.

Lemma assert_true_run (b : bool) (msg : string) (w : world) :
  b = true -> assert b msg w = (Ok tt, w).
Proof. intros ->. reflexivity. Qed.

Lemma assert_false_run (b : bool) (msg : string) (w : world) :
  b = false -> assert b msg w = (Raise (AssertionError msg), w).
Proof. intros ->. reflexivity. Qed.

(** Lines 154-158: the notice, the copy and its unit weight. *)
Lemma unit_weight_run (w : world) (net : ref) (d : DataFrame) :
  nth_error (frames w) net = Some d ->
  (_ <~ print_stderr "weight column not provided, will be set to 1s." ;;
   net <~ copy net ;;
   _ <~ setitem_scalar net "weight" (CNum 1) ;;
   ret (net, "weight")) w
  = (Ok (length (frames w), "weight"),
     mk_world (frames w ++ [with_unit_weight d])
       (stderr w ++ ["weight column not provided, will be set to 1s."])
       (stdout w) (obsm w)).
Proof.
  intros Hd.
  unfold mbind at 1. unfold print_stderr at 1.
  set (w1 := mk_world (frames w) _ (stdout w) (obsm w)).
  assert (Hd1 : nth_error (frames w1) net = Some d) by exact Hd.
  rewrite (mbind_ok _ _ _ _ _ (copy_run w1 net d Hd1)).
  set (w2 := mk_world (frames w1 ++ [d]) _ _ _).
  assert (Hd2 : nth_error (frames w2) (length (frames w1)) = Some d)
    by apply nth_error_last.
  rewrite (mbind_ok _ _ _ _ _ (setitem_scalar_run w2 _ d "weight" (CNum 1) Hd2)).
  unfold ret, w2, w1; cbn [frames stderr stdout obsm].
  rewrite set_nth_app_here. reflexivity.
Qed.

(** [rename_net] without a weight column, the two identifier columns being
    present. *)
Lemma rename_net_none_run (w : world) (net : ref) (source target : string)
  (d : DataFrame) :
  nth_error (frames w) net = Some d ->
  has_column source d = true -> has_column target d = true ->
  rename_net net source target None w
  = (net <~ rename (length (frames w))
              (dict_display [(source, "source"); (target, "target");
                             ("weight", "weight")]) ;;
     net <~ reindex net ["source"; "target"; "weight"] ;;
     ret net)
      (mk_world (frames w ++ [with_unit_weight d])
         (stderr w ++ ["weight column not provided, will be set to 1s."])
         (stdout w) (obsm w)).
Proof.
  intros Hd Hs Ht. unfold rename_net.
  rewrite (mbind_ok _ _ _ _ _ (deref_run w net d Hd)).
  rewrite (mbind_ok _ _ _ _ _ (assert_true_run _ _ w Hs)).
  rewrite (mbind_ok _ _ _ _ _ (assert_true_run _ _ w Ht)).
  rewrite (mbind_ok _ _ _ _ _ (unit_weight_run w net d Hd)).
  reflexivity.
Qed.

(** [rename_net] with a weight column named, all three being present. *)
Lemma rename_net_some_run (w : world) (net : ref)
  (source target weight : string) (d : DataFrame) :
  nth_error (frames w) net = Some d ->
  has_column source d = true -> has_column target d = true ->
  has_column weight d = true ->
  rename_net net source target (Some weight) w
  = (net <~ rename net
              (dict_display [(source, "source"); (target, "target");
                             (weight, "weight")]) ;;
     net <~ reindex net ["source"; "target"; "weight"] ;;
     ret net) w.
Proof.
  intros Hd Hs Ht Hw. unfold rename_net.
  rewrite (mbind_ok _ _ _ _ _ (deref_run w net d Hd)).
  rewrite (mbind_ok _ _ _ _ _ (assert_true_run _ _ w Hs)).
  rewrite (mbind_ok _ _ _ _ _ (assert_true_run _ _ w Ht)).
  unfold mbind at 1. unfold mbind at 1.
  rewrite (assert_true_run _ _ w Hw). reflexivity.
Qed.

(** A failed assertion of [rename_net] leaves the world as it was. *)
Lemma rename_net_missing_run (w : world) (net : ref)
  (source target : string) (weight : option string) (d : DataFrame) :
  nth_error (frames w) net = Some d ->
  has_column source d = false \/ has_column target d = false
  \/ (exists n, weight = Some n /\ has_column n d = false) ->
  exists msg,
    rename_net net source target weight w = (Raise (AssertionError msg), w).
Proof.
  intros Hd H. unfold rename_net.
  rewrite (mbind_ok _ _ _ _ _ (deref_run w net d Hd)).
  destruct (has_column source d) eqn:Hs.
  2:{ exists (not_found source). reflexivity. }
  rewrite (mbind_ok _ _ _ _ _ (assert_true_run _ _ w eq_refl)).
  destruct (has_column target d) eqn:Ht.
  2:{ exists (not_found target). reflexivity. }
  rewrite (mbind_ok _ _ _ _ _ (assert_true_run _ _ w eq_refl)).
  destruct H as [H|[H|(n & -> & Hn)]]; try discriminate.
  exists (not_found n). unfold mbind at 1. unfold mbind at 1.
  rewrite (assert_false_run _ _ w Hn). reflexivity.
Qed.

Lemma labels_renamed (source target : string) (d : DataFrame) :
  labels
    (mk_frame (index (with_unit_weight d))
       (map (fun nc =>
               (dict_get (fst nc)
                  (dict_display [(source, "source"); (target, "target");
                                 ("weight", "weight")]) (fst nc), snd nc))
          (columns (with_unit_weight d))))
  = renamed_labels source target d.
Proof.
  unfold renamed_labels, labels. cbn [columns]. now rewrite !map_map.
Qed.

(** Whatever happens, [rename_net] only adds frames to the store. *)
Lemma rename_net_extends (w : world) (net : ref) (source target : string)
  (weight : option string) :
  exists extra,
    frames (snd (rename_net net source target weight w)) = frames w ++ extra.
Proof.
  destruct (nth_error (frames w) net) as [d|] eqn:Hd.
  2:{ exists []. unfold rename_net.
      rewrite (mbind_raise _ _ _ _ _ (deref_dangling w net Hd)).
      simpl. now rewrite app_nil_r. }
  destruct (has_column source d) eqn:Hs.
  2:{ destruct (rename_net_missing_run w net source target weight d Hd
                  (or_introl Hs)) as [msg ->].
      exists []. simpl. now rewrite app_nil_r. }
  destruct (has_column target d) eqn:Ht.
  2:{ destruct (rename_net_missing_run w net source target weight d Hd
                  (or_intror (or_introl Ht))) as [msg ->].
      exists []. simpl. now rewrite app_nil_r. }
  destruct weight as [n|].
  - destruct (has_column n d) eqn:Hn.
    + rewrite (rename_net_some_run w net source target n d Hd Hs Ht Hn).
      rewrite (rename_reindex_run w net d _ Hd).
      destruct (has_dup _); eexists; reflexivity.
    + destruct (rename_net_missing_run w net source target (Some n) d Hd)
        as [msg ->].
      { right; right. exists n. now split. }
      exists []. simpl. now rewrite app_nil_r.
  - rewrite (rename_net_none_run w net source target d Hd Hs Ht).
    set (w3 := mk_world _ _ _ _).
    assert (H3 : nth_error (frames w3) (length (frames w))
                 = Some (with_unit_weight d)) by apply nth_error_last.
    rewrite (rename_reindex_run w3 _ _ _ H3).
    destruct (has_dup _); unfold w3; cbn [snd frames];
      rewrite <- app_assoc; eexists; reflexivity.
Qed.

(** Claim C10, amended.  [rename_net] fails (an [AssertionError], the world
    being left as it was) when the regulator or the target column is not in
    the table.  When no weight column is named and both columns are there,
    the notice is written to stderr; then, if the labels of the renamed
    table are distinct, the call returns a new frame with columns source,
    target, weight whose weight is 1.0 in every record, and if two of them
    collide, [reindex] raises [ValueError] and no table is returned.  In all
    cases every frame the caller had, the input among them, is unchanged. *)
Theorem rename_net_contract (w : world) (net : ref) (source target : string) :
  (forall weight d,
      nth_error (frames w) net = Some d ->
      has_column source d = false \/ has_column target d = false ->
      exists msg,
        rename_net net source target weight w
        = (Raise (AssertionError msg), w))
  /\ (forall d,
         nth_error (frames w) net = Some d ->
         has_column source d = true -> has_column target d = true ->
         stderr (snd (rename_net net source target None w))
         = stderr w ++ ["weight column not provided, will be set to 1s."]
         /\ (has_dup (renamed_labels source target d) = false ->
             exists r d',
               fst (rename_net net source target None w) = Ok r
               /\ nth_error
                    (frames (snd (rename_net net source target None w))) r
                  = Some d'
               /\ labels d' = ["source"; "target"; "weight"]
               /\ index d' = index d
               /\ find_column "weight" (columns d')
                  = Some (repeat (CNum 1) (length (index d))))
         /\ (has_dup (renamed_labels source target d) = true ->
             fst (rename_net net source target None w)
             = Raise (ValueError
                        "cannot reindex on an axis with duplicate labels")))
  /\ (forall weight k d0,
         nth_error (frames w) k = Some d0 ->
         nth_error (frames (snd (rename_net net source target weight w))) k
         = Some d0).
Proof.
  split; [| split].
  - intros weight d Hd [H|H];
      apply (rename_net_missing_run w net source target weight d Hd); tauto.
  - intros d Hd Hs Ht.
    rewrite (rename_net_none_run w net source target d Hd Hs Ht).
    set (w3 := mk_world _ _ _ _).
    assert (H3 : nth_error (frames w3) (length (frames w))
                 = Some (with_unit_weight d)) by apply nth_error_last.
    rewrite (rename_reindex_run w3 _ _ _ H3).
    rewrite labels_renamed.
    destruct (has_dup (renamed_labels source target d)).
    + split; [reflexivity | split; [discriminate | reflexivity]].
    + split; [reflexivity |]. split; [| discriminate]. intros _.
      cbn [fst snd frames].
      eexists. eexists. split; [reflexivity |].
      split.
      { apply nth_error_last2. }
      split; [reflexivity |].
      split; [reflexivity |].
      cbn [columns map find_column String.eqb Ascii.eqb Bool.eqb].
      rewrite (find_column_renamed _ _ (mapper_weight source target)).
      unfold with_unit_weight; cbn [columns index].
      now rewrite find_column_set_column.
  - intros weight k d0 Hk.
    destruct (rename_net_extends w net source target weight) as [extra ->].
    rewrite nth_error_app1; [exact Hk |].
    apply nth_error_Some. congruence.
Qed.

Lemma rename_net_contract_witness :
  (exists msg,
      rename_net 0%nat "regulator" "gene" None Sample.world0
      = (Raise (AssertionError msg), Sample.world0))
  /\ stderr (snd (rename_net 0%nat "tf" "gene" None Sample.world0))
     = [Sample.notice]
  /\ (exists r d',
         fst (rename_net 0%nat "tf" "gene" None Sample.world0) = Ok r
         /\ nth_error
              (frames (snd (rename_net 0%nat "tf" "gene" None Sample.world0))) r
            = Some d'
         /\ find_column "weight" (columns d') = Some [CNum 1; CNum 1])
  /\ nth_error (frames (snd (rename_net 0%nat "tf" "gene" None Sample.world0))) 0%nat
     = Some Sample.tf_gene.
Proof.
  split; [| split; [| split]].
  - exact (proj1 (rename_net_contract Sample.world0 0%nat "regulator" "gene")
             None Sample.tf_gene eq_refl (or_introl eq_refl)).
  - exact (proj1 (proj1 (proj2 (rename_net_contract Sample.world0 0%nat "tf" "gene"))
                    Sample.tf_gene eq_refl eq_refl eq_refl)).
  - destruct (proj1 (proj2 (proj1 (proj2 (rename_net_contract Sample.world0
                                              0%nat "tf" "gene"))
                                Sample.tf_gene eq_refl eq_refl eq_refl))
                eq_refl)
      as (r & d' & H1 & H2 & _ & _ & H5).
    exists r, d'. split; [exact H1 | split; [exact H2 | exact H5]].
  - exact (proj2 (proj2 (rename_net_contract Sample.world0 0%nat "tf" "gene"))
             None 0%nat Sample.tf_gene eq_refl).
Defined.

(** Claim C10 as stated fails.  The table has the columns tf and gene that
    the caller names, and a column source of its own: with no weight column
    named, the renamed table has two columns source, [reindex] raises
    [ValueError], and no weight is synthesized. *)
Lemma rename_net_collision_raises :
  has_column "tf" Sample.source_tf_gene = true
  /\ has_column "gene" Sample.source_tf_gene = true
  /\ fst (rename_net 0%nat "tf" "gene" None Sample.world2)
     = Raise (ValueError "cannot reindex on an axis with duplicate labels").
Proof.
  split; [reflexivity | split; reflexivity].
Qed.

(** ** The sparse rows and the dense sample *)

Lemma row_pointers_head (s : nat) (lens : list nat) :
  nth 0 (row_pointers s lens) 0%nat = s.
Proof. destruct lens; reflexivity. Qed.

Lemma row_pointers_bounds {A : Type} (es : list (list A)) (i s : nat) :
  (i < length es)%nat ->
  nth i (row_pointers s (map (@length A) es)) 0%nat
  = (s + length (concat (firstn i es)))%nat
  /\ nth (S i) (row_pointers s (map (@length A) es)) 0%nat
     = (s + length (concat (firstn i es)) + length (nth i es []))%nat.
Proof.
  revert i s; induction es as [|e es IH]; intros i s Hi; simpl in Hi.
  - lia.
  - destruct i as [|i].
    + cbn [map row_pointers nth firstn concat length].
      rewrite row_pointers_head. lia.
    + cbn [map row_pointers nth firstn concat].
      destruct (IH i (s + length e)%nat ltac:(lia)) as [H1 H2].
      rewrite H1, H2, length_app. lia.
Qed.

Lemma concat_split {A : Type} (es : list (list A)) (i : nat) :
  (i < length es)%nat ->
  concat es
  = concat (firstn i es) ++ nth i es [] ++ concat (skipn (S i) es).
Proof.
  revert i; induction es as [|e es IH]; intros i Hi; simpl in Hi.
  - lia.
  - destruct i as [|i]; simpl; [reflexivity |].
    rewrite (IH i) at 1 by lia. now rewrite <- app_assoc.
Qed.

Lemma slice_middle {A : Type} (a b c : list A) :
  slice (length a) (length a + length b) (a ++ b ++ c) = b.
Proof.
  unfold slice. rewrite skipn_app, skipn_all, Nat.sub_diag. simpl.
  replace (length a + length b - length a)%nat with (length b) by lia.
  rewrite firstn_app, firstn_all, Nat.sub_diag. simpl. apply app_nil_r.
Qed.

(** The slice of row [i] in the flattened entries. *)
Lemma slice_chunk {A B : Type} (f : A -> B) (es : list (list A)) (i : nat) :
  (i < length es)%nat ->
  slice (nth i (row_pointers 0 (map (@length A) es)) 0%nat)
        (nth (i + 1) (row_pointers 0 (map (@length A) es)) 0%nat)
        (flat_map (map f) es)
  = map f (nth i es []).
Proof.
  intros Hi. rewrite Nat.add_1_r.
  destruct (row_pointers_bounds es i 0 Hi) as [-> ->]. simpl Nat.add.
  rewrite flat_map_concat_map, <- concat_map.
  rewrite (concat_split es i Hi) at 1. rewrite !map_app.
  rewrite <- (length_map f (concat (firstn i es))).
  rewrite <- (length_map f (nth i es [])).
  apply slice_middle.
Qed.

(** Writing the stored entries of a row over zeros gives the row back. *)
Lemma scatter_entries (row pre : list R) :
  scatter (pre ++ zeros (length row))
    (map fst (filter nonzero (combine (seq (length pre) (length row)) row)))
    (map snd (filter nonzero (combine (seq (length pre) (length row)) row)))
  = pre ++ row.
Proof.
  revert pre; induction row as [|v row IH]; intros pre.
  - reflexivity.
  - cbn [length seq combine filter].
    specialize (IH (pre ++ [v])).
    rewrite length_app in IH. cbn [length] in IH.
    rewrite Nat.add_1_r, <- !app_assoc in IH. cbn [app] in IH.
    destruct (nonzero (length pre, v)) eqn:E.
    + cbn [map fst snd scatter]. unfold zeros at 1. cbn [repeat].
      rewrite set_nth_app_here. exact IH.
    + unfold nonzero in E. cbn [snd] in E.
      destruct (Req_dec_T v 0) as [Hv|Hv]; [| discriminate].
      subst v. exact IH.
Qed.

(** The dense rows of [csr_matrix(a)] are the rows of [a]. *)
Lemma dense_row_csr_matrix (a : ndarray) (i : nat) :
  wf_ndarray a -> (i < shape0 a)%nat ->
  dense_row (Sparse (csr_matrix a)) i = nth i (rows a) [].
Proof.
  intros Hwf Hi. unfold dense_row, sample_row, csr_matrix.
  cbn [data indptr indices cshape snd]. unfold shape1.
  assert (Hi' : (i < length (map row_entries (rows a)))%nat)
    by now rewrite length_map.
  rewrite (slice_chunk fst _ i Hi'), (slice_chunk snd _ i Hi').
  rewrite (nth_map_in row_entries (rows a) i [] []) by exact Hi.
  assert (Hlen : length (nth i (rows a) []) = ncols a).
  { unfold wf_ndarray in Hwf. rewrite Forall_forall in Hwf.
    apply Hwf. now apply nth_In. }
  rewrite <- Hlen. unfold row_entries.
  exact (scatter_entries (nth i (rows a) []) []).
Qed.

Lemma Forall_set_nth {A : Type} (P : A -> Prop) (i : nat) (x : A)
  (l : list A) :
  Forall P l -> P x -> Forall P (set_nth i x l).
Proof.
  intros Hl Hx. revert i; induction Hl as [|y l Hy Hl IH]; intros [|i];
    simpl; constructor; auto.
Qed.

Lemma set2_wf (a : ndarray) (i k : nat) (v : R) :
  wf_ndarray a -> (i < shape0 a)%nat -> wf_ndarray (set2 a i k v).
Proof.
  intros Hwf Hi. unfold wf_ndarray, set2 in *. cbn [rows ncols].
  apply Forall_set_nth; [exact Hwf |].
  rewrite set_nth_length. rewrite Forall_forall in Hwf. apply Hwf.
  now apply nth_In.
Qed.

(** ** The kernel as a table of cells *)

Lemma fset2_row (m : nat) (pre post : list (list num)) (row : list num)
  (j : nat) (t : num) :
  fset2 (mk_farray m (pre ++ row :: post)) (length pre) j t
  = mk_farray m (pre ++ set_nth j t row :: post).
Proof.
  unfold fset2; cbn [frows fcols].
  rewrite nth_middle. now rewrite set_nth_app_here.
Qed.

(** The loop over the regulators fills row [i] from left to right. *)
Lemma inner_loop (f : nat -> num) (m : nat) (pre post : list (list num))
  (n : nat) (done : list num) :
  fold_left (fun es j => fset2 es (length pre) j (f j)) (seq (length done) n)
    (mk_farray m (pre ++ (done ++ repeat (Fin 0) n) :: post))
  = mk_farray m (pre ++ (done ++ map f (seq (length done) n)) :: post).
Proof.
  revert done; induction n as [|n IH]; intros done.
  - reflexivity.
  - cbn [seq fold_left repeat map].
    rewrite fset2_row, set_nth_app_here.
    set (t := f (length done)).
    replace (done ++ t :: repeat (Fin 0) n)
      with ((done ++ [t]) ++ repeat (Fin 0) n) by now rewrite <- app_assoc.
    replace (S (length done)) with (length (done ++ [t]))
      by (rewrite length_app; simpl; lia).
    rewrite IH. now rewrite <- app_assoc.
Qed.

(** The loop over the samples fills the rows from top to bottom. *)
Lemma outer_loop (f : nat -> nat -> num) (m n : nat)
  (done : list (list num)) :
  fold_left (fun es i => loop m (fun j es => fset2 es i j (f i j)) es)
    (seq (length done) n)
    (mk_farray m (done ++ repeat (repeat (Fin 0) m) n))
  = mk_farray m
      (done ++ map (fun i => map (f i) (seq 0 m)) (seq (length done) n)).
Proof.
  revert done; induction n as [|n IH]; intros done.
  - reflexivity.
  - cbn [seq fold_left repeat map]. unfold loop at 2. cbv beta.
    pose proof (inner_loop (f (length done)) m done
                  (repeat (repeat (Fin 0) m) n) m []) as Hin.
    cbn [length app] in Hin. rewrite Hin. clear Hin.
    set (ts := map (f (length done)) (seq 0 m)).
    replace (done ++ ts :: repeat (repeat (Fin 0) m) n)
      with ((done ++ [ts]) ++ repeat (repeat (Fin 0) m) n)
      by now rewrite <- app_assoc.
    replace (S (length done)) with (length (done ++ [ts]))
      by (rewrite length_app; simpl; lia).
    rewrite IH. now rewrite <- app_assoc.
Qed.

Lemma nb_ulm_as_map (fp : arith) (n_samples n_features : nat)
  (data : list R) (indptr indices : list nat) (net : ndarray) :
  nb_ulm fp n_samples n_features data indptr indices net
  = mk_farray (shape1 net)
      (map (fun i =>
              map (fun j =>
                     f4 fp (ulm_cell fp (Z.of_nat (shape0 net) - 2)
                              (column j net)
                              (sample_row n_features data indptr indices i)))
                  (seq 0 (shape1 net)))
           (seq 0 n_samples)).
Proof.
  unfold nb_ulm, loop at 1, fzeros2.
  exact (outer_loop
           (fun i j =>
              f4 fp (ulm_cell fp (Z.of_nat (shape0 net) - 2) (column j net)
                       (sample_row n_features data indptr indices i)))
           (shape1 net) n_samples []).
Qed.

(** The estimates have one row per sample and one entry per regulator. *)
Lemma nb_ulm_shape (fp : arith) (n_samples n_features : nat)
  (data : list R) (indptr indices : list nat) (net : ndarray) :
  let es := nb_ulm fp n_samples n_features data indptr indices net in
  length (frows es) = n_samples /\ fcols es = shape1 net
  /\ forall i, (i < n_samples)%nat ->
               length (nth i (frows es) []) = shape1 net.
Proof.
  cbv zeta. rewrite nb_ulm_as_map. cbn [frows fcols].
  split; [now rewrite length_map, length_seq |].
  split; [reflexivity |].
  intros i Hi.
  rewrite (nth_map_in _ (seq 0 n_samples) i 0%nat [])
    by now rewrite length_seq.
  now rewrite length_map, length_seq.
Qed.

(** Every cell is the body of the inner loop on its column and its
    sample. *)
Lemma nb_ulm_cell (fp : arith) (n_samples n_features : nat)
  (data : list R) (indptr indices : list nat) (net : ndarray) (i j : nat) :
  (i < n_samples)%nat -> (j < shape1 net)%nat ->
  fget2 (nb_ulm fp n_samples n_features data indptr indices net) i j
  = f4 fp (ulm_cell fp (Z.of_nat (shape0 net) - 2) (column j net)
             (sample_row n_features data indptr indices i)).
Proof.
  intros Hi Hj. rewrite nb_ulm_as_map. unfold fget2; cbn [frows].
  rewrite (nth_map_in _ (seq 0 n_samples) i 0%nat [])
    by now rewrite length_seq.
  rewrite (nth_map_in _ (seq 0 (shape1 net)) j 0%nat NaN)
    by now rewrite length_seq.
  now rewrite !seq_nth by assumption.
Qed.

Lemma ulm_run (fp : arith) (mat : csr) (net : ndarray) :
  ulm fp mat net
  = let es := nb_ulm fp (fst (cshape mat)) (snd (cshape mat)) (data mat)
                (indptr mat) (indices mat) net in
    (es, snd (ttest_finish fp (Z.of_nat (shape0 net) - 2) es)).
Proof.
  unfold ulm. now destruct (cshape mat) as [n_samples n_features].
Qed.

(** The p-value of a cell is a function of its estimate. *)
Lemma pvalue_cell (fp : arith) (df : Z) (t : farray) (i j : nat) :
  (i < length (frows t))%nat -> (j < length (nth i (frows t) []))%nat ->
  fget2 (snd (ttest_finish fp df t)) i j
  = fmul fp (stdtr fp df (fneg (fabs (fget2 t i j)))) (f8 fp 2).
Proof.
  intros Hi Hj. unfold ttest_finish, fget2; cbn [snd frows].
  rewrite (nth_map_in _ (frows t) i [] []) by exact Hi.
  now rewrite (nth_map_in _ (nth i (frows t) []) j NaN NaN) by exact Hj.
Qed.

(** ** The column of a regulator and the dense sample *)

Lemma column_length (j : nat) (net : ndarray) :
  length (column j net) = shape0 net.
Proof. unfold column, shape0. apply length_map. Qed.

Lemma column_nth (j k : nat) (net : ndarray) :
  nth k (column j net) 0 = nth j (nth k (rows net) []) 0.
Proof.
  unfold column.
  destruct (Nat.lt_ge_cases k (length (rows net))) as [Hk|Hk].
  - now rewrite (nth_map_in _ (rows net) k [] 0).
  - rewrite (nth_overflow (map _ _)) by now rewrite length_map.
    rewrite (nth_overflow (rows net)) by exact Hk. now destruct j.
Qed.

Lemma scatter_length (row : list R) (idx : list nat) (vals : list R) :
  length (scatter row idx vals) = length row.
Proof.
  revert row vals; induction idx as [|k idx IH]; intros row [|v vals];
    simpl; try reflexivity.
  now rewrite IH, set_nth_length.
Qed.

Lemma sample_row_length (n_features : nat) (data : list R)
  (indptr indices : list nat) (i : nat) :
  length (sample_row n_features data indptr indices i) = n_features.
Proof.
  unfold sample_row, zeros. now rewrite scatter_length, repeat_length.
Qed.

(** An entry that no assignment names keeps its value. *)
Lemma scatter_skip (row : list R) (idx : list nat) (vals : list R)
  (f : nat) :
  (forall k, (k < length idx)%nat -> nth k idx 0%nat <> f) ->
  nth f (scatter row idx vals) 0 = nth f row 0.
Proof.
  revert row vals; induction idx as [|k0 idx IH]; intros row [|v vals] H;
    simpl; try reflexivity.
  rewrite IH.
  - apply nth_set_nth_other. apply (H 0%nat). simpl; lia.
  - intros k Hk. apply (H (S k)). simpl; lia.
Qed.

(** The last assignment to an entry decides its value. *)
Lemma scatter_last (row : list R) (idx : list nat) (vals : list R)
  (k : nat) :
  length idx = length vals -> (k < length idx)%nat ->
  (nth k idx 0%nat < length row)%nat ->
  (forall k', (k < k' < length idx)%nat ->
              nth k' idx 0%nat <> nth k idx 0%nat) ->
  nth (nth k idx 0%nat) (scatter row idx vals) 0 = nth k vals 0.
Proof.
  revert row vals k; induction idx as [|k0 idx IH];
    intros row [|v vals] k Hlen Hk Hin Hlast; simpl in Hlen, Hk;
    try lia.
  destruct k as [|k]; cbn [scatter nth length] in *.
  - rewrite scatter_skip.
    + now apply nth_set_nth_same.
    + intros k' Hk'. apply (Hlast (S k')). lia.
  - apply IH; try lia.
    + now rewrite set_nth_length.
    + intros k' Hk'. apply (Hlast (S k')). lia.
Qed.

(** Either no position of a list holds [f], or there is a last one. *)
Lemma last_occurrence (l : list nat) (f : nat) :
  (forall k, (k < length l)%nat -> nth k l 0%nat <> f)
  \/ exists k, (k < length l)%nat /\ nth k l 0%nat = f
               /\ forall k', (k < k' < length l)%nat -> nth k' l 0%nat <> f.
Proof.
  induction l as [|a l IH].
  - left. intros k Hk. simpl in Hk. lia.
  - destruct IH as [Hnone|(k & Hk & Hf & Hlast)].
    + destruct (Nat.eq_dec a f) as [Haf|Haf].
      * right. exists 0%nat. split; [simpl; lia |]. split; [exact Haf |].
        intros [|k'] Hk'; [lia |]. simpl. apply Hnone. simpl in Hk'. lia.
      * left. intros [|k] Hk; [exact Haf |]. simpl. apply Hnone.
        simpl in Hk. lia.
    + right. exists (S k). split; [simpl; lia |]. split; [exact Hf |].
      intros [|k'] Hk'; [lia |]. simpl. apply Hlast. simpl in Hk'. lia.
Qed.

Lemma slice_length {A : Type} (s e : nat) (a : list A) :
  (e <= length a)%nat -> length (slice s e a) = (e - s)%nat.
Proof.
  intros He. unfold slice. rewrite length_firstn, length_skipn. lia.
Qed.

Lemma slice_nth {A : Type} (s e k : nat) (a : list A) (d : A) :
  (k < e - s)%nat -> nth k (slice s e a) d = nth (s + k) a d.
Proof.
  intros Hk. unfold slice. rewrite nth_firstn.
  destruct (Nat.ltb_spec k (e - s)) as [_|H]; [| lia].
  apply nth_skipn.
Qed.

(** The dense sample is the vector that the stored entries of the row
    describe: an entry holds the value stored last for its column, and zero
    when nothing is stored for it. *)
Lemma sample_row_spec (n_features : nat) (data : list R)
  (indptr indices : list nat) (i : nat) (row : list R) :
  let s := nth i indptr 0%nat in
  let e := nth (i + 1) indptr 0%nat in
  (e <= length data)%nat -> (e <= length indices)%nat ->
  (forall k, (s <= k < e)%nat -> (nth k indices 0%nat < n_features)%nat) ->
  length row = n_features ->
  (forall k, (s <= k < e)%nat ->
             (forall k', (k < k' < e)%nat ->
                         nth k' indices 0%nat <> nth k indices 0%nat) ->
             nth (nth k indices 0%nat) row 0 = nth k data 0) ->
  (forall f, (f < n_features)%nat ->
             (forall k, (s <= k < e)%nat -> nth k indices 0%nat <> f) ->
             nth f row 0 = 0) ->
  sample_row n_features data indptr indices i = row.
Proof.
  intros s e Hd Hi Hrange Hlen Hlast Hnone.
  apply (nth_ext _ _ 0 0); [now rewrite sample_row_length |].
  intros f Hf. rewrite sample_row_length in Hf.
  unfold sample_row. fold s e.
  assert (Hli : length (slice s e indices) = (e - s)%nat)
    by now apply slice_length.
  assert (Hld : length (slice s e data) = (e - s)%nat)
    by now apply slice_length.
  destruct (last_occurrence (slice s e indices) f)
    as [Hno|(k & Hk & Hkf & Hlater)].
  - rewrite scatter_skip by exact Hno.
    unfold zeros. rewrite nth_repeat. symmetry. apply Hnone; [exact Hf |].
    intros k Hk. specialize (Hno (k - s)%nat).
    rewrite Hli, slice_nth in Hno by lia.
    replace (s + (k - s))%nat with k in Hno by lia. apply Hno. lia.
  - rewrite Hli in Hk, Hlater.
    rewrite slice_nth in Hkf by exact Hk.
    rewrite <- Hkf at 1.
    rewrite <- (slice_nth s e k indices 0%nat Hk).
    rewrite scatter_last.
    + rewrite slice_nth by exact Hk.
      rewrite <- Hkf. symmetry. apply Hlast; [lia |].
      intros k' Hk'. specialize (Hlater (k' - s)%nat).
      rewrite slice_nth in Hlater by lia.
      replace (s + (k' - s))%nat with k' in Hlater by lia.
      rewrite Hkf. apply Hlater. lia.
    + congruence.
    + lia.
    + rewrite slice_nth by exact Hk. unfold zeros. rewrite repeat_length.
      apply Hrange. lia.
    + intros k' Hk'. rewrite Hli in Hk'.
      rewrite (slice_nth s e k) by lia. rewrite Hkf. apply Hlater. exact Hk'.
Qed.

(** ** Sums, means and the covariance matrix *)

Lemma dot_map (f g : R -> R) (x y : list R) :
  dot (map f x) (map g y)
  = sum (map (fun p => f (fst p) * g (snd p)) (combine x y)).
Proof.
  unfold dot. revert y; induction x as [|a x IH]; intros [|b y]; simpl;
    try reflexivity.
  unfold sum in IH. now rewrite IH.
Qed.

Lemma combine_diag {A : Type} (x : list A) :
  combine x x = map (fun a => (a, a)) x.
Proof.
  induction x as [|a x IH]; simpl; [reflexivity | now rewrite IH].
Qed.

(** [np.cov(x, y, bias=1)] holds the biased variances and covariance. *)
Lemma cov_bias_entries (x y : list R) :
  length x = length y ->
  cov_bias x y
  = (biased_var x, biased_cov x y, biased_cov y x, biased_var y).
Proof.
  intros Hlen. unfold cov_bias, center, biased_var, biased_cov, mean.
  rewrite !dot_map, !combine_diag, !map_map, !length_map.
  rewrite !length_combine, <- Hlen, Nat.min_id. cbn [fst snd].
  reflexivity.
Qed.

Lemma eps_pos : 0 < eps.
Proof.
  unfold eps. apply Rinv_0_lt_compat. apply pow_lt. lra.
Qed.

Lemma sum_squares_nonneg {A : Type} (f : A -> R) (l : list A) :
  0 <= sum (map (fun p => f p * f p) l).
Proof.
  induction l as [|p l IH]; simpl; [lra | nra].
Qed.

(** The Cauchy-Schwarz inequality for sums over a list. *)
Lemma cauchy_schwarz {A : Type} (f g : A -> R) (l : list A) :
  sum (map (fun p => f p * g p) l) * sum (map (fun p => f p * g p) l)
  <= sum (map (fun p => f p * f p) l) * sum (map (fun p => g p * g p) l).
Proof.
  induction l as [|p l IH]; simpl; [lra |].
  pose proof (sum_squares_nonneg f l) as HA.
  pose proof (sum_squares_nonneg g l) as HB.
  set (S := sum (map (fun p => f p * g p) l)) in *.
  set (A0 := sum (map (fun p => f p * f p) l)) in *.
  set (B0 := sum (map (fun p => g p * g p) l)) in *.
  set (a := f p). set (b := g p).
  assert (Hy : 0 <= a * a * B0 + b * b * A0) by nra.
  assert (Hsq : (2 * a * b * S) * (2 * a * b * S)
                <= (a * a * B0 + b * b * A0) * (a * a * B0 + b * b * A0)).
  { pose proof (Rle_0_sqr (a * a * B0 - b * b * A0)) as H1. unfold Rsqr in H1.
    assert (H2 : 0 <= (a * b) * (a * b)) by nra.
    assert (H3 : 0 <= (a * b) * (a * b) * (A0 * B0 - S * S)).
    { apply Rmult_le_pos; [exact H2 | lra]. }
    nra. }
  assert (Hle : 2 * a * b * S <= a * a * B0 + b * b * A0).
  { destruct (Rle_lt_dec (2 * a * b * S) (a * a * B0 + b * b * A0)) as [H|H];
      [exact H | exfalso; nra]. }
  nra.
Qed.

Lemma map_fst_combine {A B : Type} (x : list A) (y : list B) :
  length x = length y -> map fst (combine x y) = x.
Proof.
  revert y; induction x as [|a x IH]; intros [|b y] H; simpl in *;
    try reflexivity; try discriminate.
  now rewrite IH by lia.
Qed.

Lemma map_snd_combine {A B : Type} (x : list A) (y : list B) :
  length x = length y -> map snd (combine x y) = y.
Proof.
  revert y; induction x as [|a x IH]; intros [|b y] H; simpl in *;
    try reflexivity; try discriminate.
  now rewrite IH by lia.
Qed.

Lemma biased_var_nonneg (v : list R) : 0 <= biased_var v.
Proof.
  unfold biased_var, mean at 1. rewrite length_map.
  pose proof (sum_squares_nonneg (fun a => a - mean v) v) as H.
  destruct v as [|a v].
  - simpl. rewrite Rdiv_0_l. lra.
  - apply Rmult_le_pos; [exact H |].
    left. apply Rinv_0_lt_compat. apply lt_0_INR. simpl; lia.
Qed.

Lemma biased_var_sum (v : list R) :
  biased_var v
  = sum (map (fun a => (a - mean v) * (a - mean v)) v) * / INR (length v).
Proof.
  unfold biased_var, mean at 1. now rewrite length_map.
Qed.

Lemma biased_cov_sum (x y : list R) :
  length x = length y ->
  biased_cov x y
  = sum (map (fun p => (fst p - mean x) * (snd p - mean y)) (combine x y))
    * / INR (length x).
Proof.
  intros Hlen. unfold biased_cov, mean at 1.
  now rewrite length_map, length_combine, <- Hlen, Nat.min_id.
Qed.

(** The squared covariance is at most the product of the variances. *)
Lemma biased_cov_bound (x y : list R) :
  length x = length y ->
  biased_cov x y * biased_cov x y <= biased_var x * biased_var y.
Proof.
  intros Hlen.
  rewrite (biased_cov_sum x y Hlen), (biased_var_sum x), (biased_var_sum y).
  rewrite <- Hlen.
  set (mx := mean x). set (my := mean y).
  pose proof (cauchy_schwarz (fun p : R * R => fst p - mx)
                (fun p => snd p - my) (combine x y)) as CS.
  cbv beta in CS.
  assert (Hx : sum (map (fun p : R * R => (fst p - mx) * (fst p - mx))
                      (combine x y))
               = sum (map (fun a => (a - mx) * (a - mx)) x)).
  { rewrite <- (map_fst_combine x y Hlen) at 2. now rewrite map_map. }
  assert (Hy : sum (map (fun p : R * R => (snd p - my) * (snd p - my))
                      (combine x y))
               = sum (map (fun a => (a - my) * (a - my)) y)).
  { rewrite <- (map_snd_combine x y Hlen) at 2. now rewrite map_map. }
  rewrite Hx, Hy in CS.
  set (Sxy := sum (map (fun p : R * R => (fst p - mx) * (snd p - my))
                     (combine x y))) in *.
  set (Sxx := sum (map (fun a => (a - mx) * (a - mx)) x)) in *.
  set (Syy := sum (map (fun a => (a - my) * (a - my)) y)) in *.
  set (n := / INR (length x)).
  pose proof (Rle_0_sqr n) as Hn. unfold Rsqr in Hn.
  replace (Sxy * n * (Sxy * n)) with (Sxy * Sxy * (n * n)) by ring.
  replace (Sxx * n * (Syy * n)) with (Sxx * Syy * (n * n)) by ring.
  now apply Rmult_le_compat_r.
Qed.

(** Pearson's r lies between -1 and 1 when its divisor is not zero. *)
Lemma pearson_bound (x y : list R) :
  length x = length y ->
  sqrt (biased_var x * biased_var y) <> 0 ->
  -1 <= pearson x y <= 1.
Proof.
  intros Hlen Hs. unfold pearson.
  pose proof (biased_cov_bound x y Hlen) as Hc.
  pose proof (biased_var_nonneg x) as Hx.
  pose proof (biased_var_nonneg y) as Hy.
  set (c := biased_cov x y) in *.
  set (s := sqrt (biased_var x * biased_var y)) in *.
  assert (Hs0 : 0 < s).
  { pose proof (sqrt_pos (biased_var x * biased_var y)). fold s in H. lra. }
  assert (Hss : s * s = biased_var x * biased_var y).
  { apply sqrt_sqrt. now apply Rmult_le_pos. }
  assert (Hcs : c * c <= s * s) by lra.
  assert (Hinv : 0 < / s) by now apply Rinv_0_lt_compat.
  assert (Hcb : - s <= c <= s) by nra.
  unfold Rdiv. split.
  - replace (-1) with (- s * / s) by (field; lra).
    apply Rmult_le_compat_r; lra.
  - replace 1 with (s * / s) by (field; lra).
    apply Rmult_le_compat_r; lra.
Qed.

Lemma second_divisor_pos (r : R) :
  -1 <= r <= 1 -> 0 < (1 - r + eps) * (1 + r + eps).
Proof.
  intros H. pose proof eps_pos. apply Rmult_lt_0_compat; lra.
Qed.

Lemma sqrt_product_zero (a b : R) :
  0 <= a -> 0 <= b -> (sqrt (a * b) = 0 <-> a = 0 \/ b = 0).
Proof.
  intros Ha Hb. split.
  - intros H. apply sqrt_eq_0 in H; [| now apply Rmult_le_pos].
    now apply Rmult_integral.
  - intros [->| ->]; [rewrite Rmult_0_l | rewrite Rmult_0_r]; apply sqrt_0.
Qed.

Lemma biased_cov_diag (x : list R) : biased_cov x x = biased_var x.
Proof.
  unfold biased_cov, biased_var. now rewrite combine_diag, map_map.
Qed.

Lemma pearson_diag (x : list R) : biased_var x <> 0 -> pearson x x = 1.
Proof.
  intros Hx. unfold pearson.
  rewrite biased_cov_diag, sqrt_square by apply biased_var_nonneg.
  now field.
Qed.

(** The variances and covariances of the sample inputs. *)
Lemma var_120 : biased_var [1; 2; 0] = 2 / 3.
Proof. unfold biased_var, mean, Np.sum. simpl. field. Qed.

Lemma var_122 : biased_var [1; 2; 2] = 2 / 9.
Proof. unfold biased_var, mean, Np.sum. simpl. field. Qed.

Lemma cov_120_120 : biased_cov [1; 2; 0] [1; 2; 0] = 2 / 3.
Proof. unfold biased_cov, mean, Np.sum. simpl. field. Qed.

Lemma cov_120_122 : biased_cov [1; 2; 0] [1; 2; 2] = 0.
Proof. unfold biased_cov, mean, Np.sum. simpl. field. Qed.

Lemma var_12 : biased_var [1; 2] = 1 / 4.
Proof. unfold biased_var, mean, Np.sum. simpl. field. Qed.

Lemma var_13 : biased_var [1; 3] = 1.
Proof. unfold biased_var, mean, Np.sum. simpl. field. Qed.

Lemma student1_symmetric (df : Z) (x : R) :
  Sample.student1 df (- x) = 1 - Sample.student1 df x.
Proof.
  unfold Sample.student1. rewrite atan_opp.
  pose proof PI_RGT_0. field. lra.
Qed.

Lemma student1_monotone (df : Z) (x y : R) :
  x <= y -> Sample.student1 df x <= Sample.student1 df y.
Proof.
  intros [Hlt| ->]; [| lra]. unfold Sample.student1.
  pose proof (atan_increasing x y Hlt) as H. pose proof PI_RGT_0 as Hpi.
  apply Rplus_le_compat_l. unfold Rdiv.
  apply Rmult_le_compat_r; [left; now apply Rinv_0_lt_compat | lra].
Qed.

Lemma student1_range (df : Z) (x : R) : 0 <= Sample.student1 df x <= 1.
Proof.
  unfold Sample.student1. pose proof (atan_bound x) as [Hlo Hhi].
  pose proof PI_RGT_0 as Hpi.
  assert (Hinv : 0 < / PI) by now apply Rinv_0_lt_compat.
  assert (H1 : - / 2 <= atan x / PI).
  { replace (- / 2) with (- PI / 2 * / PI) by (field; lra).
    unfold Rdiv. apply Rmult_le_compat_r; lra. }
  assert (H2 : atan x / PI <= / 2).
  { replace (/ 2) with (PI / 2 * / PI) by (field; lra).
    unfold Rdiv at 1. apply Rmult_le_compat_r; lra. }
  lra.
Qed.

(** ** Exact arithmetic *)

Lemma fneg_involutive (a : num) : fneg (fneg a) = a.
Proof. destruct a; simpl; try reflexivity. now rewrite Ropp_involutive. Qed.

Lemma fabs_fneg (a : num) : fabs (fneg a) = fabs a.
Proof. destruct a; simpl; try reflexivity. now rewrite Rabs_Ropp. Qed.

Lemma xdiv_fin (a b : R) : b <> 0 -> xdiv (Fin a) (Fin b) = Fin (a / b).
Proof.
  intros H. simpl. destruct (Req_dec_T b 0); [contradiction | reflexivity].
Qed.

Lemma xsqrt_fin (a : R) : 0 <= a -> xsqrt (Fin a) = Fin (sqrt a).
Proof.
  intros H. simpl. destruct (Rlt_dec a 0); [lra | reflexivity].
Qed.

Lemma xdiv_opp (a b : num) : xdiv (fneg a) b = fneg (xdiv a b).
Proof. destruct a, b; simpl; unfold scale_inf, inf; xcases. Qed.

Lemma xmul_opp (a b : num) : xmul (fneg a) b = fneg (xmul a b).
Proof. destruct a, b; simpl; unfold scale_inf, inf; xcases. Qed.

Lemma xmul_comm (a b : num) : xmul a b = xmul b a.
Proof. destruct a, b; simpl; unfold scale_inf, inf; xcases. Qed.

Lemma sum_opp (l : list R) : sum (map Ropp l) = - sum l.
Proof.
  unfold sum. induction l as [|a l IH]; simpl; [ring | rewrite IH; ring].
Qed.

Lemma center_opp (x : list R) : center (map Ropp x) = map Ropp (center x).
Proof.
  unfold center, mean. rewrite sum_opp, length_map, !map_map.
  apply map_ext. intros v. unfold Rdiv. ring.
Qed.

Lemma dot_opp_l (a b : list R) : dot (map Ropp a) b = - dot a b.
Proof.
  unfold dot, sum. revert b; induction a as [|u a IH]; intros [|v b]; simpl;
    try ring.
  rewrite IH. ring.
Qed.

Lemma dot_opp_r (a b : list R) : dot a (map Ropp b) = - dot a b.
Proof.
  unfold dot, sum. revert b; induction a as [|u a IH]; intros [|v b]; simpl;
    try ring.
  rewrite IH. ring.
Qed.

(** Exact arithmetic is symmetric around zero. *)
Lemma ideal_symmetric (cdf : Z -> R -> R) : symmetric (ideal cdf).
Proof.
  split; cbn [np_cov fdiv fmul fsub fadd f4 ideal].
  - intros x y bias. unfold cov.
    rewrite center_opp, length_map, dot_opp_l, !dot_opp_r, dot_opp_l.
    rewrite Ropp_involutive.
    rewrite <- !xdiv_opp. reflexivity.
  - apply xdiv_opp.
  - apply xmul_opp.
  - apply xmul_comm.
  - intros a b. unfold xsub. now rewrite fneg_involutive.
  - reflexivity.
  - reflexivity.
Qed.

Lemma biased_var_nil : biased_var [] = 0.
Proof. unfold biased_var, mean. simpl. apply Rdiv_0_l. Qed.

(** Without rounding, [np.cov(x, y, bias=1)] holds the biased variances and
    covariances. *)
Lemma ideal_cov (cdf : Z -> R -> R) (x y : list R) :
  length x = length y -> x <> [] ->
  np_cov (ideal cdf) x y true
  = (Fin (biased_var x), Fin (biased_cov x y), Fin (biased_cov y x),
     Fin (biased_var y)).
Proof.
  intros Hlen Hx. cbn [np_cov ideal]. unfold cov.
  assert (Hn : 0 < INR (length x)).
  { apply lt_0_INR. destruct x; [contradiction | simpl; lia]. }
  rewrite Rminus_0_r, Rmax_left by lra.
  rewrite !xdiv_fin by lra.
  pose proof (cov_bias_entries x y Hlen) as H. unfold cov_bias in H.
  injection H as H1 H2 H3 H4. now rewrite H1, H2, H3, H4.
Qed.

(** Without observations [np.cov] is NaN throughout. *)
Lemma ideal_cov_nil (cdf : Z -> R -> R) :
  np_cov (ideal cdf) [] [] true = (NaN, NaN, NaN, NaN).
Proof.
  cbn [np_cov ideal]. unfold cov, center, dot. simpl.
  rewrite Rminus_0_r, Rmax_left by lra.
  destruct (Req_dec_T 0 0) as [_|H]; [| contradiction].
  unfold scale_inf. destruct (Req_dec_T 0 0) as [_|H]; [| contradiction].
  reflexivity.
Qed.

(** One cell without rounding: the t-statistic of Pearson's r when the
    weight column and the sample both have a variance other than zero and
    [df] is not negative. *)
Lemma ideal_cell (cdf : Z -> R -> R) (df : Z) (x y : list R) :
  length x = length y -> (0 <= df)%Z ->
  biased_var x <> 0 -> biased_var y <> 0 ->
  ulm_cell (ideal cdf) df x y = Fin (t_stat df (pearson x y)).
Proof.
  intros Hlen Hdf Hx Hy. unfold ulm_cell.
  assert (Hnil : x <> []).
  { intros ->. apply Hx. apply biased_var_nil. }
  rewrite (ideal_cov cdf x y Hlen Hnil).
  cbn [fdiv fmul fsub fadd fsqrt f8 ideal xmul].
  pose proof (biased_var_nonneg x) as Hx0.
  pose proof (biased_var_nonneg y) as Hy0.
  assert (Hs : sqrt (biased_var x * biased_var y) <> 0).
  { intros H. apply (sqrt_product_zero _ _ Hx0 Hy0) in H. tauto. }
  rewrite xsqrt_fin by now apply Rmult_le_pos.
  rewrite (xdiv_fin _ _ Hs). fold (pearson x y).
  pose proof (second_divisor_pos _ (pearson_bound x y Hlen Hs)) as Hd.
  set (r := pearson x y) in *.
  cbn [xsub xadd fneg xmul].
  change (1 + - r + eps) with (1 - r + eps).
  rewrite xdiv_fin by lra.
  rewrite xsqrt_fin.
  - reflexivity.
  - apply Rmult_le_pos; [now apply IZR_le | left; now apply Rinv_0_lt_compat].
Qed.

(** A weight column or a sample without variance gives NaN. *)
Lemma ideal_cell_nan (cdf : Z -> R -> R) (df : Z) (x y : list R) :
  length x = length y ->
  biased_var x = 0 \/ biased_var y = 0 ->
  ulm_cell (ideal cdf) df x y = NaN.
Proof.
  intros Hlen Hzero. unfold ulm_cell.
  destruct x as [|x0 x'].
  - destruct y; [| discriminate]. now rewrite ideal_cov_nil.
  - set (x := x0 :: x') in *.
    rewrite (ideal_cov cdf x y Hlen) by discriminate.
    cbn [fdiv fmul fsub fadd fsqrt f8 ideal xmul].
    pose proof (biased_var_nonneg x) as Hx0.
    pose proof (biased_var_nonneg y) as Hy0.
    pose proof (biased_cov_bound x y Hlen) as Hb.
    assert (Hp : biased_var x * biased_var y = 0)
      by (destruct Hzero as [-> | ->]; ring).
    assert (Hc : biased_cov x y = 0) by nra.
    rewrite Hp, Hc, xsqrt_fin, sqrt_0 by lra.
    cbn [xdiv]. destruct (Req_dec_T 0 0) as [_|H]; [| contradiction].
    unfold scale_inf. destruct (Req_dec_T 0 0) as [_|H]; [| contradiction].
    reflexivity.
Qed.

(** ** The estimate of every cell *)

(** Claim C1.  Let the weight matrix have one row per feature of the data.
    Whatever the arithmetic, for every sample [i] and every regulator [j]
    the estimate that [nb_ulm] stores is
    [t = r * sqrt (df / ((1 - r + eps) * (1 + r + eps)))] with
    [eps = 1e-20] and [r = ssxym / sqrt (ssxm * ssym)], where [df] is the
    number of rows of the weight matrix minus 2, the same for all cells, and
    [ssxm], [ssxym], [ssym] are taken from [np.cov(x, row, bias=1)]: [x] is
    column [j] of the weight matrix, and [row] is the dense feature vector
    of sample [i], which holds for a feature the value stored for it (the
    last one, should the sparse row name it twice) and zero when none is
    stored.  The estimates have one row per sample and one entry per
    regulator.  Without rounding, [np.cov(x, row, bias=1)] holds the biased
    (divide-by-N) variance of [x], the biased covariance of [x] and [row],
    and the biased variance of [row]. *)
Theorem nb_ulm_estimate (fp : arith) (n_samples n_features : nat)
  (data : list R) (indptr indices : list nat) (net : ndarray)
  (i j : nat) (x row : list R) :
  let s := nth i indptr 0%nat in
  let e := nth (i + 1) indptr 0%nat in
  n_features = shape0 net ->
  (i < n_samples)%nat -> (j < shape1 net)%nat ->
  (e <= length data)%nat -> (e <= length indices)%nat ->
  (forall k, (s <= k < e)%nat -> (nth k indices 0%nat < n_features)%nat) ->
  length x = shape0 net ->
  (forall k, (k < shape0 net)%nat ->
             nth k x 0 = nth j (nth k (rows net) []) 0) ->
  length row = n_features ->
  (forall k, (s <= k < e)%nat ->
             (forall k', (k < k' < e)%nat ->
                         nth k' indices 0%nat <> nth k indices 0%nat) ->
             nth (nth k indices 0%nat) row 0 = nth k data 0) ->
  (forall f, (f < n_features)%nat ->
             (forall k, (s <= k < e)%nat -> nth k indices 0%nat <> f) ->
             nth f row 0 = 0) ->
  let es := nb_ulm fp n_samples n_features data indptr indices net in
  let '(ssxm, ssxym, _, ssym) := np_cov fp x row true in
  let r := fdiv fp ssxym (fsqrt fp (fmul fp ssxm ssym)) in
  let df := f8 fp (IZR (Z.of_nat (shape0 net) - 2)) in
  length (frows es) = n_samples /\ fcols es = shape1 net
  /\ fget2 es i j
     = f4 fp
         (fmul fp r
            (fsqrt fp
               (fdiv fp df
                  (fmul fp
                     (fadd fp (fsub fp (f8 fp 1) r) (f8 fp (/ 10 ^ 20)))
                     (fadd fp (fadd fp (f8 fp 1) r) (f8 fp (/ 10 ^ 20)))))))
  /\ (forall cdf,
         (0 < n_features)%nat ->
         np_cov (ideal cdf) x row true
         = (Fin (biased_var x), Fin (biased_cov x row),
            Fin (biased_cov row x), Fin (biased_var row))).
Proof.
  intros s e Hn Hi Hj Hd Hix Hrange Hx Hxk Hrow Hlast Hnone es.
  assert (Hcol : column j net = x).
  { apply (nth_ext _ _ 0 0); [now rewrite column_length |].
    intros k Hk. rewrite column_length in Hk.
    now rewrite column_nth, Hxk. }
  assert (Hsample : sample_row n_features data indptr indices i = row)
    by now apply sample_row_spec.
  pose proof (nb_ulm_cell fp n_samples n_features data indptr indices net
                i j Hi Hj) as Hcell.
  rewrite Hcol, Hsample in Hcell. unfold ulm_cell in Hcell.
  destruct (np_cov fp x row true) as [[[ssxm ssxym] c] ssym].
  cbv zeta.
  destruct (nb_ulm_shape fp n_samples n_features data indptr indices net)
    as (H0 & H1 & _).
  split; [exact H0 | split; [exact H1 | split; [exact Hcell |]]].
  intros cdf Hpos. apply ideal_cov; [congruence |].
  intros ->. simpl in Hx. lia.
Qed.

Lemma var_012 : biased_var [0; 1; 2] = 2 / 3.
Proof. unfold biased_var, mean, Np.sum. simpl. field. Qed.

Lemma nb_ulm_estimate_witness :
  fget2 (nb_ulm (ideal Sample.student1) 2 3 (data Sample.mat_ab)
           (indptr Sample.mat_ab) (indices Sample.mat_ab) Sample.weights32)
        1 1
  = Fin (t_stat 1 (pearson [0; 1; 2] [1; 2; 2])).
Proof.
  pose proof (nb_ulm_estimate (ideal Sample.student1) 2 3
                (data Sample.mat_ab) (indptr Sample.mat_ab)
                (indices Sample.mat_ab) Sample.weights32 1 1
                [0; 1; 2] [1; 2; 2]) as H.
  cbv zeta in H.
  assert (Hcell : ulm_cell (ideal Sample.student1) 1 [0; 1; 2] [1; 2; 2]
                  = Fin (t_stat 1 (pearson [0; 1; 2] [1; 2; 2]))).
  { apply ideal_cell; [reflexivity | lia | rewrite var_012; lra
                      | rewrite var_122; lra]. }
  unfold ulm_cell in Hcell.
  rewrite (ideal_cov Sample.student1 [0; 1; 2] [1; 2; 2] eq_refl)
    in H, Hcell by discriminate.
  destruct H as (_ & _ & H & _).
  - reflexivity.
  - lia.
  - simpl; lia.
  - simpl; lia.
  - simpl; lia.
  - intros k Hk. simpl in Hk.
    assert (Hc : k = 2%nat \/ k = 3%nat \/ k = 4%nat) by lia.
    destruct Hc as [->|[->| ->]]; simpl; lia.
  - reflexivity.
  - intros k Hk. change (k < 3)%nat in Hk.
    assert (Hc : k = 0%nat \/ k = 1%nat \/ k = 2%nat) by lia.
    destruct Hc as [->|[->| ->]]; reflexivity.
  - reflexivity.
  - intros k Hk _. simpl in Hk.
    assert (Hc : k = 2%nat \/ k = 3%nat \/ k = 4%nat) by lia.
    destruct Hc as [->|[->| ->]]; reflexivity.
  - intros f Hf Hno. exfalso.
    assert (Hc : f = 0%nat \/ f = 1%nat \/ f = 2%nat) by lia.
    destruct Hc as [->|[->| ->]].
    + apply (Hno 2%nat); [simpl; lia | reflexivity].
    + apply (Hno 3%nat); [simpl; lia | reflexivity].
    + apply (Hno 4%nat); [simpl; lia | reflexivity].
  - rewrite H. exact Hcell.
Defined.

(** ** The sign law *)

Lemma column_negate_same (j : nat) (net : ndarray) :
  column j (negate_column j net) = map Ropp (column j net).
Proof.
  unfold column, negate_column; cbn [rows]. rewrite !map_map.
  apply map_ext. intros row.
  destruct (Nat.lt_ge_cases j (length row)) as [Hj|Hj].
  - now apply nth_set_nth_same.
  - rewrite !nth_overflow; [ring | exact Hj | now rewrite set_nth_length].
Qed.

Lemma column_negate_other (j k : nat) (net : ndarray) :
  j <> k -> column k (negate_column j net) = column k net.
Proof.
  intros Hjk. unfold column, negate_column; cbn [rows]. rewrite map_map.
  apply map_ext. intros row. now apply nth_set_nth_other.
Qed.

(** In a symmetric arithmetic, negating the weight column negates the
    estimate of the cell. *)
Lemma ulm_cell_neg (fp : arith) (df : Z) (x row : list R) :
  symmetric fp ->
  ulm_cell fp df (map Ropp x) row = fneg (ulm_cell fp df x row).
Proof.
  intros Hsym. unfold ulm_cell. rewrite (cov_odd fp Hsym).
  destruct (np_cov fp x row true) as [[[ssxm ssxym] c] ssym].
  rewrite (div_odd fp Hsym).
  set (r := fdiv fp ssxym (fsqrt fp (fmul fp ssxm ssym))).
  rewrite (sub_opp fp Hsym), (add_opp fp Hsym).
  rewrite (mul_comm fp Hsym (fadd fp (fadd fp (f8 fp 1) r) (f8 fp eps))).
  apply (mul_odd fp Hsym).
Qed.

(** Claim C6.  In an arithmetic that is symmetric around zero, as IEEE 754
    arithmetic is, and for a weight matrix with one row per feature of the
    data, negating every weight of regulator [j] negates the estimates of
    regulator [j] for every sample and leaves their absolute values
    unchanged; the estimates of the other regulators and all p-values are
    unchanged. *)
Theorem sign_law (fp : arith) (mat : csr) (net : ndarray) (j : nat) :
  symmetric fp -> snd (cshape mat) = shape0 net ->
  let es := fst (ulm fp mat net) in
  let pv := snd (ulm fp mat net) in
  let es' := fst (ulm fp mat (negate_column j net)) in
  let pv' := snd (ulm fp mat (negate_column j net)) in
  forall i k,
    (i < fst (cshape mat))%nat -> (k < shape1 net)%nat ->
    fget2 es' i k = (if Nat.eqb k j then fneg (fget2 es i k) else fget2 es i k)
    /\ fabs (fget2 es' i k) = fabs (fget2 es i k)
    /\ fget2 pv' i k = fget2 pv i k.
Proof.
  intros Hsym _ es pv es' pv' i k Hi Hk.
  subst es pv es' pv'. rewrite !ulm_run. cbn [fst snd].
  set (n := fst (cshape mat)) in *. set (m := snd (cshape mat)).
  assert (H0 : shape0 (negate_column j net) = shape0 net)
    by (unfold shape0, negate_column; simpl; apply length_map).
  assert (H1 : shape1 (negate_column j net) = shape1 net) by reflexivity.
  assert (Hes : fget2 (nb_ulm fp n m (data mat) (indptr mat) (indices mat)
                         (negate_column j net)) i k
                = if Nat.eqb k j
                  then fneg (fget2 (nb_ulm fp n m (data mat) (indptr mat)
                                      (indices mat) net) i k)
                  else fget2 (nb_ulm fp n m (data mat) (indptr mat)
                                (indices mat) net) i k).
  { rewrite !nb_ulm_cell by (rewrite ?H1; assumption). rewrite H0.
    destruct (Nat.eqb_spec k j) as [->|Hkj].
    - rewrite column_negate_same, (ulm_cell_neg fp _ _ _ Hsym).
      apply (f4_odd fp Hsym).
    - now rewrite column_negate_other by congruence. }
  assert (Habs : fabs (fget2 (nb_ulm fp n m (data mat) (indptr mat)
                                (indices mat) (negate_column j net)) i k)
                 = fabs (fget2 (nb_ulm fp n m (data mat) (indptr mat)
                                  (indices mat) net) i k)).
  { rewrite Hes. destruct (Nat.eqb k j); [apply fabs_fneg | reflexivity]. }
  split; [exact Hes | split; [exact Habs |]].
  destruct (nb_ulm_shape fp n m (data mat) (indptr mat) (indices mat) net)
    as (Hr & _ & Hc).
  destruct (nb_ulm_shape fp n m (data mat) (indptr mat) (indices mat)
              (negate_column j net)) as (Hr' & _ & Hc').
  rewrite !pvalue_cell by (rewrite ?Hr, ?Hr', ?Hc, ?Hc' by exact Hi; lia).
  now rewrite H0, Habs.
Qed.

(** The cells of the sample inputs, without rounding. *)
Lemma perfect_t : t_stat 1 1 = sqrt (1 / (eps * (2 + eps))).
Proof.
  unfold t_stat. rewrite Rmult_1_l. f_equal. unfold Rdiv. f_equal.
  f_equal. ring.
Qed.

Lemma perfect_t_pos : 0 < sqrt (1 / (eps * (2 + eps))).
Proof.
  pose proof eps_pos as He. apply sqrt_lt_R0. unfold Rdiv.
  rewrite Rmult_1_l. apply Rinv_0_lt_compat. apply Rmult_lt_0_compat; lra.
Qed.

Lemma cell_120_120 (cdf : Z -> R -> R) :
  ulm_cell (ideal cdf) 1 [1; 2; 0] [1; 2; 0]
  = Fin (sqrt (1 / (eps * (2 + eps)))).
Proof.
  rewrite ideal_cell; [| reflexivity | lia | rewrite var_120; lra
                      | rewrite var_120; lra].
  rewrite pearson_diag by (rewrite var_120; lra).
  now rewrite perfect_t.
Qed.

Lemma cell_120_122 (cdf : Z -> R -> R) :
  ulm_cell (ideal cdf) 1 [1; 2; 0] [1; 2; 2] = Fin 0.
Proof.
  rewrite ideal_cell; [| reflexivity | lia | rewrite var_120; lra
                      | rewrite var_122; lra].
  unfold t_stat, pearson. rewrite cov_120_122. unfold Rdiv.
  now rewrite !Rmult_0_l.
Qed.

Lemma ulm_mat_a (cdf : Z -> R -> R) :
  fget2 (fst (ulm (ideal cdf) Sample.mat_a Sample.weights3)) 0 0
  = Fin (sqrt (1 / (eps * (2 + eps)))).
Proof.
  rewrite ulm_run. cbn [fst].
  rewrite nb_ulm_cell by (simpl; lia).
  exact (cell_120_120 cdf).
Qed.

Lemma ulm_mat_b (cdf : Z -> R -> R) :
  fget2 (fst (ulm (ideal cdf) Sample.mat_b Sample.weights3)) 0 0 = Fin 0.
Proof.
  rewrite ulm_run. cbn [fst].
  rewrite nb_ulm_cell by (simpl; lia).
  exact (cell_120_122 cdf).
Qed.

Lemma sign_law_witness :
  exists t,
    0 < t
    /\ fget2 (fst (ulm (ideal Sample.student1) Sample.mat_a Sample.weights3))
             0 0 = Fin t
    /\ fget2 (fst (ulm (ideal Sample.student1) Sample.mat_a
                     (negate_column 0 Sample.weights3))) 0 0 = Fin (- t)
    /\ fget2 (snd (ulm (ideal Sample.student1) Sample.mat_a
                     (negate_column 0 Sample.weights3))) 0 0
       = fget2 (snd (ulm (ideal Sample.student1) Sample.mat_a
                       Sample.weights3)) 0 0.
Proof.
  exists (sqrt (1 / (eps * (2 + eps)))).
  destruct (sign_law (ideal Sample.student1) Sample.mat_a Sample.weights3 0
              (ideal_symmetric Sample.student1) eq_refl 0%nat 0%nat)
    as (Hes & _ & Hpv); [simpl; lia | simpl; lia |].
  split; [exact perfect_t_pos |].
  split; [apply ulm_mat_a |].
  split; [| exact Hpv].
  rewrite Hes, ulm_mat_a. reflexivity.
Defined.

(** ** The p-values *)

(** Claim C7, amended.  [ulm] hands its estimates and [df], the number of
    rows of the weight matrix minus 2, to the finisher.  The finisher
    returns the estimates as they are and a p-value matrix of the same
    shape whose entry for an estimate [t] is [2 * stdtr(df, -|t|)].  Where
    [t] is a number and [stdtr(df, .)] is a distribution function [cdf],
    symmetric around zero and evaluated without rounding, the entry is
    [2 * (1 - cdf |t|)] and lies in [0, 1].  Where [t] is NaN, and [stdtr]
    and the product hand NaN on, the entry is NaN. *)
Theorem finisher_pvalues (fp : arith) (df : Z) (t : farray) :
  let pv := snd (ttest_finish fp df t) in
  (forall mat net,
      ulm fp mat net
      = (fst (ulm fp mat net),
         snd (ttest_finish fp (Z.of_nat (shape0 net) - 2)
                (fst (ulm fp mat net)))))
  /\ fst (ttest_finish fp df t) = t
  /\ fcols pv = fcols t /\ length (frows pv) = length (frows t)
  /\ (forall i, length (nth i (frows pv) []) = length (nth i (frows t) []))
  /\ (forall i j,
         (i < length (frows t))%nat -> (j < length (nth i (frows t) []))%nat ->
         fget2 pv i j
         = fmul fp (stdtr fp df (fneg (fabs (fget2 t i j)))) (f8 fp 2))
  /\ (forall cdf : R -> R,
         (forall x, stdtr fp df (Fin x) = Fin (cdf x)) ->
         (forall c, fmul fp (Fin c) (f8 fp 2) = Fin (c * 2)) ->
         (forall x, 0 <= cdf x <= 1) ->
         (forall x y, x <= y -> cdf x <= cdf y) ->
         (forall x, cdf (- x) = 1 - cdf x) ->
         forall i j v,
           (i < length (frows t))%nat ->
           (j < length (nth i (frows t) []))%nat ->
           fget2 t i j = Fin v ->
           fget2 pv i j = Fin (2 * (1 - cdf (Rabs v)))
           /\ 0 <= 2 * (1 - cdf (Rabs v)) <= 1)
  /\ (stdtr fp df NaN = NaN -> (forall b, fmul fp NaN b = NaN) ->
      forall i j,
        (i < length (frows t))%nat ->
        (j < length (nth i (frows t) []))%nat ->
        fget2 t i j = NaN -> fget2 pv i j = NaN).
Proof.
  intros pv.
  split.
  { intros mat net. rewrite ulm_run. reflexivity. }
  split; [reflexivity |].
  split; [reflexivity |].
  split; [unfold pv, ttest_finish; cbn [snd frows]; apply length_map |].
  split.
  { intros i. unfold pv, ttest_finish; cbn [snd frows].
    destruct (Nat.lt_ge_cases i (length (frows t))) as [Hi|Hi].
    - rewrite (nth_map_in _ (frows t) i [] []) by exact Hi.
      apply length_map.
    - rewrite !nth_overflow; [reflexivity | exact Hi |].
      now rewrite length_map. }
  split; [intros i j Hi Hj; now apply pvalue_cell |].
  split.
  - intros cdf Hcdf Hdouble Hrange Hmono Hsym i j v Hi Hj Hv.
    unfold pv. rewrite pvalue_cell by assumption.
    rewrite Hv. cbn [fabs fneg]. rewrite Hcdf, Hdouble.
    pose proof (Rabs_pos v) as Hpos.
    pose proof (Hmono (- Rabs v) (Rabs v) ltac:(lra)) as Hle.
    pose proof (Hrange (- Rabs v)) as Hr.
    pose proof (Hsym (Rabs v)) as Hs.
    split; [f_equal; lra | lra].
  - intros Hnan Hmul i j Hi Hj Hv.
    unfold pv. rewrite pvalue_cell by assumption.
    rewrite Hv. cbn [fabs fneg]. now rewrite Hnan, Hmul.
Qed.

Lemma student1_zero (df : Z) : Sample.student1 df 0 = / 2.
Proof. unfold Sample.student1. rewrite atan_0. field. apply PI_neq0. Qed.

Lemma finisher_pvalues_witness :
  fget2 (snd (ulm (ideal Sample.student1) Sample.mat_b Sample.weights3)) 0 0
  = Fin 1.
Proof.
  destruct (finisher_pvalues (ideal Sample.student1) 1
              (fst (ulm (ideal Sample.student1) Sample.mat_b
                      Sample.weights3)))
    as (Hulm & _ & _ & _ & _ & _ & Hnum & _).
  rewrite (Hulm Sample.mat_b Sample.weights3). cbn [snd].
  change (Z.of_nat (shape0 Sample.weights3) - 2)%Z with 1%Z.
  destruct (Hnum (Sample.student1 1)) with (i := 0%nat) (j := 0%nat) (v := 0)
    as [Hp _].
  - reflexivity.
  - reflexivity.
  - apply student1_range.
  - apply student1_monotone.
  - apply student1_symmetric.
  - rewrite ulm_run. cbn [fst]. rewrite (proj1 (nb_ulm_shape _ _ _ _ _ _ _)).
    simpl; lia.
  - rewrite ulm_run. cbn [fst].
    rewrite (proj2 (proj2 (nb_ulm_shape _ _ _ _ _ _ _))) by (simpl; lia).
    simpl; lia.
  - apply ulm_mat_b.
  - rewrite Hp, Rabs_R0, student1_zero. f_equal. field.
Defined.

(** Claim C7 as stated fails.  A sample whose features are all zero has no
    variance: its estimate is NaN, and so is its p-value, which then is no
    number between 0 and 1. *)
Lemma pvalue_nan :
  fget2 (fst (ulm (ideal Sample.student1) Sample.mat_zero Sample.weights3))
        0 0 = NaN
  /\ fget2 (snd (ulm (ideal Sample.student1) Sample.mat_zero Sample.weights3))
           0 0 = NaN
  /\ ~ (exists p,
           fget2 (snd (ulm (ideal Sample.student1) Sample.mat_zero
                         Sample.weights3)) 0 0 = Fin p
           /\ 0 <= p <= 1).
Proof.
  assert (Hes : fget2 (fst (ulm (ideal Sample.student1) Sample.mat_zero
                              Sample.weights3)) 0 0 = NaN).
  { rewrite ulm_run. cbn [fst]. rewrite nb_ulm_cell by (simpl; lia).
    cbn [f4 ideal]. apply ideal_cell_nan; [reflexivity |].
    right. change (biased_var [0; 0; 0] = 0).
    unfold biased_var, mean, Np.sum. simpl. field. }
  assert (Hpv : fget2 (snd (ulm (ideal Sample.student1) Sample.mat_zero
                              Sample.weights3)) 0 0 = NaN).
  { rewrite ulm_run in Hes |- *. cbn [fst snd] in Hes |- *.
    rewrite pvalue_cell.
    - rewrite Hes. reflexivity.
    - rewrite (proj1 (nb_ulm_shape _ _ _ _ _ _ _)). simpl; lia.
    - rewrite (proj2 (proj2 (nb_ulm_shape _ _ _ _ _ _ _))) by (simpl; lia).
      simpl; lia. }
  split; [exact Hes | split; [exact Hpv |]].
  intros (p & Hp & _). rewrite Hpv in Hp. discriminate Hp.
Qed.

(** ** A feature that the network does not know *)

(** What [match] returns for a pivoted network. *)
Lemma match_value (mat : csr) (c r : list string) (net : ndarray) :
  length r = shape0 net ->
  match_ mat c r net
  = Ok (mk_ndarray (shape1 net)
          (map (fun ci => match find_label ci r with
                          | Some p => nth p (rows net) []
                          | None => zeros (shape1 net)
                          end) c)).
Proof.
  intros Hlen. rewrite match_as_map.
  rewrite (mapM_ok _ (fun ci => match find_label ci r with
                                | Some p => nth p (rows net) []
                                | None => zeros (shape1 net)
                                end)); [reflexivity |].
  intros ci _. rewrite match_inner_find.
  destruct (find_label ci r) as [p|] eqn:E; [| reflexivity].
  apply find_label_some in E. destruct E as (Hp & _).
  simpl. rewrite (nth_error_nth' (rows net) []); [reflexivity |].
  unfold shape0 in Hlen. lia.
Qed.

(** Claim C8, amended.  A feature of the data that no target of the
    network names gets an all-zero row of the aligned weight matrix.  On a
    weight matrix (one row per feature) with such a row [k] the kernel
    raises nothing, and in every column the weight of feature [k] is zero;
    but whatever value [v] sample [i] holds for feature [k], the estimates
    of sample [i] are computed from the sample vector with [v] in it: the
    observed value takes part in [np.cov], with weight zero. *)
Theorem absent_feature (fp : arith) :
  (forall mat c r net i,
      length r = shape0 net -> (i < length c)%nat -> ~ In (nth i c "") r ->
      exists regX,
        match_ mat c r net = Ok regX
        /\ nth i (rows regX) [] = zeros (shape1 net))
  /\ (forall (a net : ndarray) i j k v,
         wf_ndarray a -> ncols a = shape0 net ->
         (i < shape0 a)%nat -> (j < shape1 net)%nat ->
         nth k (rows net) [] = zeros (shape1 net) ->
         nth k (column j net) 0 = 0
         /\ fget2 (fst (ulm fp (csr_matrix (set2 a i k v)) net)) i j
            = f4 fp (ulm_cell fp (Z.of_nat (shape0 net) - 2) (column j net)
                       (set_nth k v (nth i (rows a) [])))).
Proof.
  split.
  - intros mat c r net i Hlen Hi Hnin.
    eexists. split; [now apply match_value |].
    cbn [rows].
    rewrite (nth_map_in _ c i "" []) by exact Hi.
    apply find_label_none in Hnin. now rewrite Hnin.
  - intros a net i j k v Hwf _ Hi Hj Hzero. split.
    + rewrite column_nth, Hzero. unfold zeros. apply nth_repeat.
    + assert (Hi' : (i < shape0 (set2 a i k v))%nat).
      { unfold shape0, set2; cbn [rows]. now rewrite set_nth_length. }
      rewrite ulm_run. cbn [fst].
      rewrite nb_ulm_cell by (cbn [csr_matrix cshape fst]; assumption).
      pose proof (dense_row_csr_matrix (set2 a i k v) i
                    (set2_wf a i k v Hwf Hi) Hi') as Hrow.
      unfold dense_row in Hrow. rewrite Hrow.
      unfold set2; cbn [rows].
      now rewrite nth_set_nth_same by exact Hi.
Qed.

Lemma absent_feature_witness :
  (exists regX,
      match_ Sample.no_matrix Sample.features123 Sample.targets13
        Sample.weights13 = Ok regX
      /\ nth 1 (rows regX) [] = zeros 2)
  /\ fget2 (fst (ulm (ideal Sample.student1)
                   (csr_matrix (set2 (mk_ndarray 3 [[1; 2; 0]]) 0 2 2))
                   Sample.weights3)) 0 0
     = ulm_cell (ideal Sample.student1) 1 [1; 2; 0] [1; 2; 2].
Proof.
  split.
  - apply (proj1 (absent_feature (ideal Sample.student1)) Sample.no_matrix
             Sample.features123 Sample.targets13 Sample.weights13 1%nat);
      [reflexivity | simpl; lia |].
    intros [H|[H|[]]]; discriminate H.
  - apply (proj2 (absent_feature (ideal Sample.student1))
             (mk_ndarray 3 [[1; 2; 0]]) Sample.weights3 0%nat 0%nat 2%nat 2).
    + repeat constructor.
    + reflexivity.
    + unfold shape0; simpl; lia.
    + simpl; lia.
    + reflexivity.
Defined.

(** Claim C8 as stated fails.  The third feature has a zero row in the
    weight matrix.  Two samples that differ in the observed value of that
    feature only, 0 and 2, get different estimates. *)
Lemma absent_feature_contributes :
  nth 2 (rows Sample.weights3) [] = zeros 1
  /\ sample_row 3 (data Sample.mat_b) (indptr Sample.mat_b)
       (indices Sample.mat_b) 0
     = set_nth 2 2
         (sample_row 3 (data Sample.mat_a) (indptr Sample.mat_a)
            (indices Sample.mat_a) 0)
  /\ fget2 (fst (ulm (ideal Sample.student1) Sample.mat_a Sample.weights3))
           0 0
     <> fget2 (fst (ulm (ideal Sample.student1) Sample.mat_b
                      Sample.weights3)) 0 0.
Proof.
  split; [reflexivity | split; [reflexivity |]].
  rewrite ulm_mat_a, ulm_mat_b. intros H. injection H as H.
  pose proof perfect_t_pos. lra.
Qed.

(** ** Fewer than three features *)

(** Claim C9, amended.  [ulm] has no check of the degrees of freedom.  On a
    weight matrix with fewer than three rows (one per feature of the data),
    where [df] is less than 1, it raises nothing: it returns estimates and p-values of the usual shape,
    every estimate being the formula of the kernel for that [df] and every
    p-value being [2 * stdtr(df, -|t|)] for that [df]. *)
Theorem few_rows (fp : arith) (mat : csr) (net : ndarray) :
  snd (cshape mat) = shape0 net -> (shape0 net < 3)%nat ->
  let df := (Z.of_nat (shape0 net) - 2)%Z in
  let es := fst (ulm fp mat net) in
  let pv := snd (ulm fp mat net) in
  (df < 1)%Z
  /\ length (frows es) = fst (cshape mat) /\ fcols es = shape1 net
  /\ length (frows pv) = fst (cshape mat) /\ fcols pv = shape1 net
  /\ forall i j,
       (i < fst (cshape mat))%nat -> (j < shape1 net)%nat ->
       fget2 es i j
       = f4 fp (ulm_cell fp df (column j net)
                  (sample_row (snd (cshape mat)) (data mat) (indptr mat)
                     (indices mat) i))
       /\ fget2 pv i j
          = fmul fp (stdtr fp df (fneg (fabs (fget2 es i j)))) (f8 fp 2).
Proof.
  intros _ Hrows df es pv. subst es pv. rewrite ulm_run. cbn [fst snd].
  destruct (nb_ulm_shape fp (fst (cshape mat)) (snd (cshape mat)) (data mat)
              (indptr mat) (indices mat) net) as (H0 & H1 & Hrow).
  split; [unfold df; lia |].
  split; [exact H0 | split; [exact H1 |]].
  split; [unfold ttest_finish; cbn [snd frows]; now rewrite length_map |].
  split; [exact H1 |].
  intros i j Hi Hj. split.
  - now apply nb_ulm_cell.
  - apply pvalue_cell; [now rewrite H0 | now rewrite Hrow].
Qed.

Lemma cell_12_13 (cdf : Z -> R -> R) :
  ulm_cell (ideal cdf) 0 [1; 2] [1; 3] = Fin 0.
Proof.
  rewrite ideal_cell; [| reflexivity | lia | rewrite var_12; lra
                      | rewrite var_13; lra].
  unfold t_stat, Rdiv. now rewrite Rmult_0_l, sqrt_0, Rmult_0_r.
Qed.

Lemma few_rows_witness :
  fget2 (fst (ulm (ideal Sample.student1) Sample.mat2 Sample.weights2)) 0 0
  = Fin 0.
Proof.
  destruct (few_rows (ideal Sample.student1) Sample.mat2 Sample.weights2)
    as (_ & _ & _ & _ & _ & Hcell);
    [reflexivity | unfold shape0; simpl; lia |].
  destruct (Hcell 0%nat 0%nat) as [Hes _]; [simpl; lia | simpl; lia |].
  rewrite Hes. exact (cell_12_13 Sample.student1).
Defined.

(** Claim C9 as stated fails.  With a weight matrix of two rows, [df = 0],
    [ulm] returns: one estimate, 0, for the one sample and the one
    regulator, and nothing is raised. *)
Lemma two_rows_no_error :
  shape0 Sample.weights2 = 2%nat
  /\ fst (ulm (ideal Sample.student1) Sample.mat2 Sample.weights2)
     = mk_farray 1 [[Fin 0]].
Proof.
  split; [reflexivity |].
  rewrite ulm_run. cbn [fst]. rewrite nb_ulm_as_map.
  change (shape1 Sample.weights2) with 1%nat.
  change (fst (cshape Sample.mat2)) with 1%nat.
  cbn [seq map].
  change (ulm_cell (ideal Sample.student1)
            (Z.of_nat (shape0 Sample.weights2) - 2)
            (column 0 Sample.weights2)
            (sample_row (snd (cshape Sample.mat2)) (data Sample.mat2)
               (indptr Sample.mat2) (indices Sample.mat2) 0))
    with (ulm_cell (ideal Sample.student1) 0 [1; 2] [1; 3]).
  now rewrite cell_12_13.
Qed.

(** No check of the degrees of freedom.  Without rounding, on a weight
    matrix with two rows (df = 0) [ulm] returns, when no variance is zero,
    estimates that are all 0, with the p-values of [df = 0]. *)
Theorem ulm_two_features (cdf : Z -> R -> R) (mat : csr) (net : ndarray) :
  shape0 net = 2%nat -> snd (cshape mat) = 2%nat ->
  (forall i j,
      (i < fst (cshape mat))%nat -> (j < shape1 net)%nat ->
      biased_var (column j net) <> 0
      /\ biased_var (sample_row (snd (cshape mat)) (data mat) (indptr mat)
                       (indices mat) i) <> 0) ->
  exists es,
    ulm (ideal cdf) mat net = (es, snd (ttest_finish (ideal cdf) 0 es))
    /\ forall i j,
         (i < fst (cshape mat))%nat -> (j < shape1 net)%nat ->
         fget2 es i j = Fin 0.
Proof.
  intros H2 Hf Hvar.
  exists (fst (ulm (ideal cdf) mat net)). split.
  - rewrite ulm_run at 1. cbn [fst]. rewrite ulm_run, H2. reflexivity.
  - intros i j Hi Hj. rewrite ulm_run. cbn [fst].
    rewrite nb_ulm_cell by assumption.
    destruct (Hvar i j Hi Hj) as [Hx Hy].
    rewrite H2. change (Z.of_nat 2 - 2)%Z with 0%Z.
    cbn [f4 ideal]. rewrite ideal_cell; [| | lia | exact Hx | exact Hy].
    + unfold t_stat, Rdiv. now rewrite Rmult_0_l, sqrt_0, Rmult_0_r.
    + rewrite column_length, sample_row_length. congruence.
Qed.

Lemma variances_2 (i j : nat) :
  (i < fst (cshape Sample.mat2))%nat -> (j < shape1 Sample.weights2)%nat ->
  biased_var (column j Sample.weights2) <> 0
  /\ biased_var (sample_row (snd (cshape Sample.mat2)) (data Sample.mat2)
                   (indptr Sample.mat2) (indices Sample.mat2) i) <> 0.
Proof.
  intros Hi Hj. simpl in Hi, Hj.
  assert (i = 0%nat) by lia. assert (j = 0%nat) by lia. subst.
  change (biased_var [1; 2] <> 0 /\ biased_var [1; 3] <> 0).
  rewrite var_12, var_13. lra.
Qed.

Lemma ulm_two_features_witness :
  exists es,
    ulm (ideal Sample.student1) Sample.mat2 Sample.weights2
    = (es, snd (ttest_finish (ideal Sample.student1) 0 es))
    /\ fget2 es 0 0 = Fin 0.
Proof.
  destruct (ulm_two_features Sample.student1 Sample.mat2 Sample.weights2
              eq_refl eq_refl variances_2) as (es & Hes & Hzero).
  exists es. split; [exact Hes |].
  apply Hzero; simpl; lia.
Defined.

(** ** No variance *)

(** No variance, no number.  Without rounding, the cell of a sample or of a
    weight column whose variance is zero (all entries equal) holds NaN, and
    so does its p-value; nothing is raised, and the other cells are
    computed as usual. *)
Theorem zero_variance_nan (cdf : Z -> R -> R) (mat : csr) (net : ndarray)
  (i j : nat) :
  snd (cshape mat) = shape0 net ->
  (i < fst (cshape mat))%nat -> (j < shape1 net)%nat ->
  biased_var (column j net) = 0
  \/ biased_var (sample_row (snd (cshape mat)) (data mat) (indptr mat)
                   (indices mat) i) = 0 ->
  fget2 (fst (ulm (ideal cdf) mat net)) i j = NaN
  /\ fget2 (snd (ulm (ideal cdf) mat net)) i j = NaN.
Proof.
  intros Hrows Hi Hj Hzero.
  assert (Hes : fget2 (fst (ulm (ideal cdf) mat net)) i j = NaN).
  { rewrite ulm_run. cbn [fst]. rewrite nb_ulm_cell by assumption.
    cbn [f4 ideal]. apply ideal_cell_nan; [| exact Hzero].
    rewrite column_length, sample_row_length. congruence. }
  split; [exact Hes |].
  rewrite ulm_run in Hes |- *. cbn [fst snd] in Hes |- *.
  destruct (nb_ulm_shape (ideal cdf) (fst (cshape mat)) (snd (cshape mat))
              (data mat) (indptr mat) (indices mat) net) as (H0 & _ & Hrow).
  rewrite pvalue_cell by (rewrite ?H0, ?Hrow by exact Hi; assumption).
  rewrite Hes. cbn [fabs fneg stdtr fmul ideal]. unfold xstdtr.
  now destruct (Z.of_nat (shape0 net) - 2 <=? 0)%Z.
Qed.

Lemma zero_variance_nan_witness :
  fget2 (fst (ulm (ideal Sample.student1) Sample.mat_zero Sample.weights3))
        0 0 = NaN
  /\ fget2 (snd (ulm (ideal Sample.student1) Sample.mat_zero
                   Sample.weights3)) 0 0 = NaN.
Proof.
  apply (zero_variance_nan Sample.student1 Sample.mat_zero Sample.weights3
           0 0); [reflexivity | simpl; lia | simpl; lia |].
  right. change (biased_var [0; 0; 0] = 0).
  unfold biased_var, mean, Np.sum. simpl. field.
Defined.

(** ** More on filtering and re-indexing *)

Lemma filter_all {A : Type} (p : A -> bool) (l : list A) :
  (forall x, In x l -> p x = true) -> filter p l = l.
Proof.
  induction l as [|x l IH]; intros H; simpl; [reflexivity |].
  rewrite (H x) by now left.
  now rewrite IH by (intros y Hy; apply H; now right).
Qed.

Lemma filter_filter_length {A : Type} (p q : A -> bool) (l : list A) :
  (forall x, In x l -> q x = true -> p x = true) ->
  length (filter q (filter p l)) = length (filter q l).
Proof.
  induction l as [|x l IH]; intros H; simpl; [reflexivity |].
  assert (IH' := IH (fun y Hy => H y (or_intror Hy))).
  destruct (q x) eqn:Hq.
  - rewrite (H x (or_introl eq_refl) Hq). simpl. rewrite Hq. simpl.
    now rewrite IH'.
  - destruct (p x); simpl; rewrite ?Hq; exact IH'.
Qed.

Lemma map_const_repeat {A B : Type} (v : B) (l : list A) :
  map (fun _ => v) l = repeat v (length l).
Proof.
  induction l as [|x l IH]; simpl; [reflexivity | now rewrite IH].
Qed.

Lemma filter_none {A : Type} (p : A -> bool) (l : list A) :
  (forall x, In x l -> p x = false) -> filter p l = [].
Proof.
  induction l as [|x l IH]; intros H; cbn [filter]; [reflexivity |].
  rewrite (H x) by now left.
  apply IH. intros y Hy. apply H. now right.
Qed.

(** Idempotence.  Filtering a filtered network again, with the same
    feature labels and minimum count, removes nothing more. *)
Theorem filt_min_n_idempotent (c : list string) (net : list edge)
  (min_n : Z) :
  filt_min_n c (filt_min_n c net min_n) min_n = filt_min_n c net min_n.
Proof.
  rewrite (filt_min_n_filter c (filt_min_n c net min_n)).
  apply filter_all. intros e He.
  assert (Hsame : n_resolved c (filt_min_n c net min_n) (source e)
                  = n_resolved c net (source e)).
  { unfold n_resolved. rewrite filt_min_n_filter.
    apply filter_filter_length. intros e' _ Hq.
    apply andb_true_iff in Hq. destruct Hq as [Hq _].
    apply String.eqb_eq in Hq. rewrite Hq.
    rewrite filt_min_n_filter in He. apply filter_In in He. apply He. }
  rewrite Hsame.
  rewrite filt_min_n_filter in He. apply filter_In in He. apply He.
Qed.

(** Nothing left.  When no regulator reaches the count, the filtered
    network is empty, its pivot is the empty matrix, and [match] gives a
    weight matrix with one row per feature and no column. *)
Theorem nothing_left (mat : csr) (c : list string) (net : list edge)
  (min_n : Z) :
  (forall e, In e net ->
             (Z.of_nat (n_resolved c net (source e)) < Z.max 1 min_n)%Z) ->
  filt_min_n c net min_n = []
  /\ get_net_mat (filt_min_n c net min_n) = Ok ([], [], mk_ndarray 0 [])
  /\ match_ mat c [] (mk_ndarray 0 []) = Ok (zeros2 (length c) 0).
Proof.
  intros Hlow.
  assert (Hnil : filt_min_n c net min_n = []).
  { rewrite filt_min_n_filter. apply filter_none. intros e He.
    specialize (Hlow e He).
    apply not_true_iff_false. intros Htrue.
    apply andb_true_iff in Htrue. destruct Htrue as [H1 H2].
    apply Nat.leb_le in H1. apply Z.leb_le in H2. lia. }
  split; [exact Hnil |]. rewrite Hnil.
  split; [reflexivity |].
  rewrite match_as_map.
  rewrite (mapM_ok _ (fun _ => zeros 0)) by reflexivity.
  cbn [bind]. now rewrite map_const_repeat.
Qed.

Lemma nothing_left_witness :
  filt_min_n Sample.features123 Sample.net_small 5 = []
  /\ match_ Sample.no_matrix Sample.features123 [] (mk_ndarray 0 [])
     = Ok (zeros2 3 0).
Proof.
  destruct (nothing_left Sample.no_matrix Sample.features123
              Sample.net_small 5) as (H1 & _ & H3).
  - intros e [<-|[<-|[<-|[]]]]; vm_compute; reflexivity.
  - split; [exact H1 | exact H3].
Defined.

Lemma mapM_raise {A B : Type} (f : A -> result B) (e : exn) (l : list A) :
  (forall x, In x l -> (exists y, f x = Ok y) \/ f x = Raise e) ->
  (exists x, In x l /\ f x = Raise e) ->
  mapM f l = Raise e.
Proof.
  induction l as [|x l IH]; intros Hall (x0 & Hin & Hx0); simpl.
  - contradiction.
  - destruct (Hall x (or_introl eq_refl)) as [[y Hy]|Hr].
    + rewrite Hy. simpl.
      destruct Hin as [->|Hin]; [congruence |].
      rewrite IH; [reflexivity | | now exists x0].
      intros z Hz. apply Hall. now right.
    + now rewrite Hr.
Qed.

(** Out of bounds.  When the label of some feature first occurs in the
    target-label array at a position for which the weight matrix has no
    row, [match] raises [IndexError]. *)
Theorem match_index_error (mat : csr) (c r : list string) (net : ndarray)
  (i j : nat) :
  (i < length c)%nat ->
  find_label (nth i c "") r = Some j ->
  (shape0 net <= j)%nat ->
  match_ mat c r net = Raise IndexError.
Proof.
  intros Hi Hfind Hj. rewrite match_as_map.
  rewrite (mapM_raise _ IndexError); [reflexivity | |].
  - intros ci _. rewrite match_inner_find.
    destruct (find_label ci r); [| left; eexists; reflexivity].
    destruct (nth_error (rows net) (0 + n));
      [left; eexists; reflexivity | now right].
  - exists (nth i c ""). split; [now apply nth_In |].
    rewrite match_inner_find, Hfind.
    destruct (nth_error (rows net) (0 + j)) eqn:E; [| reflexivity].
    exfalso. assert (Hlt : (0 + j < length (rows net))%nat)
      by (apply nth_error_Some; congruence).
    unfold shape0 in Hj. lia.
Qed.

Lemma match_index_error_witness :
  match_ Sample.no_matrix Sample.features123 Sample.targets13
    Sample.weights_short = Raise IndexError.
Proof.
  apply (match_index_error _ _ _ _ 2%nat 1%nat);
    [simpl; lia | reflexivity | unfold shape0; simpl; lia].
Defined.

(** ** The axes of the pivot and the aligned weights *)

Lemma insert_sorted_perm (s : string) (l : list string) :
  Permutation (insert_sorted s l) (s :: l).
Proof.
  induction l as [|t l IH]; simpl; [reflexivity |].
  destruct (String.leb s t); [reflexivity |].
  rewrite IH. apply perm_swap.
Qed.

Lemma sort_perm (l : list string) : Permutation (sort l) l.
Proof.
  induction l as [|t l IH]; simpl; [reflexivity |].
  rewrite insert_sorted_perm. now constructor.
Qed.

Lemma insert_sorted_hd (s a : string) (l : list string) :
  label_le a s -> HdRel label_le a l -> HdRel label_le a (insert_sorted s l).
Proof.
  intros Has Hal. destruct l as [|t l]; simpl; [now constructor |].
  destruct (String.leb s t); constructor; [exact Has |].
  now inversion Hal.
Qed.

Lemma insert_sorted_sorted (s : string) (l : list string) :
  Sorted label_le l -> Sorted label_le (insert_sorted s l).
Proof.
  induction l as [|t l IH]; intros Hs; simpl.
  - repeat constructor.
  - inversion Hs as [|? ? Hl Hhd]; subst.
    destruct (String.leb s t) eqn:E.
    + constructor; [exact Hs | now constructor].
    + constructor; [now apply IH |].
      apply insert_sorted_hd; [| exact Hhd].
      destruct (String.leb_total s t) as [H|H]; [congruence | exact H].
Qed.

Lemma sort_sorted (l : list string) : Sorted label_le (sort l).
Proof.
  induction l as [|t l IH]; simpl; [constructor |].
  now apply insert_sorted_sorted.
Qed.

Lemma unique_nodup (l : list string) : NoDup (unique l).
Proof.
  unfold unique.
  apply (Permutation_NoDup (Permutation_sym (sort_perm _))).
  apply NoDup_nodup.
Qed.

(** What [get_net_mat] returns when it returns. *)
Lemma get_net_mat_ok (net : list edge) (sources targets : list string)
  (X : ndarray) :
  get_net_mat net = Ok (sources, targets, X) ->
  has_dup_pair net = false
  /\ sources = unique (map source net)
  /\ targets = unique (map target net)
  /\ X = mk_ndarray (length sources)
           (map (fun t => map (cell_value net t) sources) targets).
Proof.
  unfold get_net_mat, pivot.
  destruct (has_dup_pair net); simpl; [discriminate |].
  intros H. injection H as <- <- <-.
  repeat split. f_equal. rewrite map_map. apply map_ext. intros t.
  rewrite map_map. apply map_ext. intros s. unfold cell_value.
  destruct (find (at_cell t s) net); reflexivity.
Qed.

(** Axes of the pivot.  The regulator labels and the target labels that
    [get_net_mat] returns are in ascending order without repetition, they
    are exactly the regulators and the targets of the records, and every row
    of the matrix has one entry per regulator. *)
Theorem get_net_mat_axes (net : list edge) (sources targets : list string)
  (X : ndarray) :
  get_net_mat net = Ok (sources, targets, X) ->
  Sorted label_le sources /\ NoDup sources
  /\ Sorted label_le targets /\ NoDup targets
  /\ (forall s, In s sources <-> exists e, In e net /\ source e = s)
  /\ (forall t, In t targets <-> exists e, In e net /\ target e = t)
  /\ wf_ndarray X.
Proof.
  intros H. apply get_net_mat_ok in H. destruct H as (_ & Hs & Ht & HX).
  split; [rewrite Hs; apply sort_sorted |].
  split; [rewrite Hs; apply unique_nodup |].
  split; [rewrite Ht; apply sort_sorted |].
  split; [rewrite Ht; apply unique_nodup |].
  split; [| split].
  - intros s. rewrite Hs, unique_in, in_map_iff. firstorder.
  - intros t. rewrite Ht, unique_in, in_map_iff. firstorder.
  - rewrite HX. unfold wf_ndarray; cbn [rows ncols].
    apply Forall_forall. intros row Hrow. apply in_map_iff in Hrow.
    destruct Hrow as (t & <- & _). apply length_map.
Qed.

Lemma get_net_mat_axes_witness :
  exists sources targets X,
    get_net_mat Sample.net_small = Ok (sources, targets, X)
    /\ Sorted label_le sources /\ NoDup targets.
Proof.
  exists ["T1"; "T2"], ["G1"; "G2"; "G3"],
    (mk_ndarray 2 [[1; 0]; [2; 0]; [0; 4]]).
  assert (H : get_net_mat Sample.net_small
              = Ok (["T1"; "T2"], ["G1"; "G2"; "G3"],
                    mk_ndarray 2 [[1; 0]; [2; 0]; [0; 4]])) by reflexivity.
  split; [exact H |].
  destruct (get_net_mat_axes _ _ _ _ H) as (H1 & _ & _ & H4 & _).
  split; [exact H1 | exact H4].
Defined.

Lemma cell_value_record (net : list edge) (e : edge) :
  has_dup_pair net = false -> In e net ->
  cell_value net (target e) (source e)
  = match weight e with Some w => w | None => 0 end.
Proof.
  intros Hdup He. unfold cell_value. now rewrite (find_at_cell net e Hdup He).
Qed.

Lemma cell_value_none (net : list edge) (t s : string) :
  (forall e, In e net -> ~ (target e = t /\ source e = s)) ->
  cell_value net t s = 0.
Proof.
  intros Hnone. unfold cell_value.
  destruct (find (at_cell t s) net) as [e|] eqn:E; [| reflexivity].
  apply find_some in E. destruct E as [He Hcell].
  apply at_cell_true in Hcell. exfalso. now apply (Hnone e He).
Qed.

(** Alignment.  For the pivot of a network, [match] returns the aligned
    weight matrix: one row per feature label, one column per regulator; the
    cell of feature [i] and regulator [j] holds the weight of the record of
    that pair (0.0 for a NaN weight), and 0.0 when the network has no such
    record, in particular in every row of a feature that is no target. *)
Theorem aligned_weights (mat : csr) (c : list string) (net : list edge)
  (sources targets : list string) (X : ndarray) :
  get_net_mat net = Ok (sources, targets, X) ->
  exists regX,
    match_ mat c targets X = Ok regX
    /\ wf_ndarray regX
    /\ shape0 regX = length c /\ shape1 regX = length sources
    /\ forall i j,
         (i < length c)%nat -> (j < length sources)%nat ->
         (forall e, In e net ->
                    target e = nth i c "" -> source e = nth j sources "" ->
                    get2 regX i j
                    = match weight e with Some w => w | None => 0 end)
         /\ ((forall e, In e net ->
                        ~ (target e = nth i c ""
                           /\ source e = nth j sources "")) ->
             get2 regX i j = 0).
Proof.
  intros H. apply get_net_mat_ok in H. destruct H as (Hdup & Hs & Ht & HX).
  set (n := length sources) in *.
  set (g := fun ci => match find_label ci targets with
                      | Some p => nth p (rows X) []
                      | None => zeros n
                      end).
  assert (Hrow : forall ci, g ci = map (cell_value net ci) sources).
  { intros ci. unfold g.
    destruct (find_label ci targets) as [p|] eqn:E.
    - apply find_label_some in E. destruct E as (Hp & Hn & _).
      rewrite HX; cbn [rows].
      rewrite (nth_map_in _ targets p "" []) by exact Hp. now rewrite Hn.
    - apply find_label_none in E.
      unfold zeros, n. rewrite <- map_const_repeat.
      apply map_ext_in. intros s _. symmetry. apply cell_value_none.
      intros e He [Hte _]. apply E. rewrite Ht, unique_in, <- Hte.
      now apply in_map. }
  assert (Hmap : mapM (fun ci => match_inner X ci targets 0 (zeros (shape1 X))) c
                 = Ok (map g c)).
  { apply mapM_ok. intros ci _. rewrite match_inner_find. unfold g.
    replace (shape1 X) with n by (rewrite HX; reflexivity).
    destruct (find_label ci targets) as [p|] eqn:E; [| reflexivity].
    apply find_label_some in E. destruct E as (Hp & _).
    simpl. rewrite (nth_error_nth' (rows X) []); [reflexivity |].
    rewrite HX; cbn [rows]. now rewrite length_map. }
  exists (mk_ndarray (shape1 X) (map g c)).
  split; [rewrite match_as_map, Hmap; reflexivity |].
  assert (HX1 : shape1 X = n) by (rewrite HX; reflexivity).
  split.
  { unfold wf_ndarray; cbn [rows ncols]. apply Forall_forall.
    intros row Hin. apply in_map_iff in Hin. destruct Hin as (ci & <- & _).
    rewrite Hrow, length_map. symmetry. exact HX1. }
  split; [unfold shape0; cbn [rows]; apply length_map |].
  split; [exact HX1 |].
  intros i j Hi Hj.
  assert (Hcell : get2 (mk_ndarray (shape1 X) (map g c)) i j
                  = cell_value net (nth i c "") (nth j sources "")).
  { unfold get2; cbn [rows].
    rewrite (nth_map_in g c i "" []) by exact Hi.
    rewrite Hrow. now rewrite (nth_map_in _ sources j "" 0) by exact Hj. }
  rewrite Hcell. split.
  - intros e He Hte Hse. rewrite <- Hte, <- Hse.
    now apply cell_value_record.
  - apply cell_value_none.
Qed.

Lemma aligned_weights_witness :
  exists regX,
    match_ Sample.no_matrix ["G0"; "G1"] ["G1"; "G2"; "G3"]
      (mk_ndarray 2 [[1; 0]; [2; 0]; [0; 4]]) = Ok regX
    /\ get2 regX 1 0 = 1 /\ get2 regX 0 0 = 0.
Proof.
  assert (H : get_net_mat Sample.net_small
              = Ok (["T1"; "T2"], ["G1"; "G2"; "G3"],
                    mk_ndarray 2 [[1; 0]; [2; 0]; [0; 4]])) by reflexivity.
  destruct (aligned_weights Sample.no_matrix ["G0"; "G1"] _ _ _ _ H)
    as (regX & Hm & _ & _ & _ & Hcell).
  exists regX. split; [exact Hm |]. split.
  - apply (proj1 (Hcell 1%nat 0%nat ltac:(simpl; lia) ltac:(simpl; lia))
             (mk_edge "T1" "G1" (Some 1))); [simpl; tauto | reflexivity
                                              | reflexivity].
  - apply (proj2 (Hcell 0%nat 0%nat ltac:(simpl; lia) ltac:(simpl; lia))).
    intros e [<-|[<-|[<-|[]]]] [Ht _]; discriminate Ht.
Defined.

(** ** The dense sample of a sparse row *)

(** Round trip.  For a dense matrix [a], the kernel's dense sample [i] of
    [csr_matrix(a)] is row [i] of [a]. *)
Theorem csr_round_trip (a : ndarray) (i : nat) :
  wf_ndarray a -> (i < shape0 a)%nat ->
  sample_row (ncols a) (data (csr_matrix a)) (indptr (csr_matrix a))
    (indices (csr_matrix a)) i
  = nth i (rows a) [].
Proof.
  intros Hwf Hi. unfold sample_row, csr_matrix; cbn [data indptr indices].
  assert (Hi' : (i < length (map row_entries (rows a)))%nat)
    by now rewrite length_map.
  rewrite (slice_chunk fst _ i Hi'), (slice_chunk snd _ i Hi').
  rewrite (nth_map_in row_entries (rows a) i [] []) by exact Hi.
  assert (Hlen : length (nth i (rows a) []) = ncols a).
  { unfold wf_ndarray in Hwf. rewrite Forall_forall in Hwf.
    apply Hwf. now apply nth_In. }
  rewrite <- Hlen. unfold row_entries.
  exact (scatter_entries (nth i (rows a) []) []).
Qed.

Lemma csr_round_trip_witness :
  sample_row 2 (data (csr_matrix Sample.weights13))
    (indptr (csr_matrix Sample.weights13))
    (indices (csr_matrix Sample.weights13)) 1
  = [3; 4].
Proof.
  apply (csr_round_trip Sample.weights13 1%nat).
  - repeat constructor.
  - unfold shape0; simpl; lia.
Defined.

(** ** Extracting the data: [extract] *)

Lemma extract_unfold (fp : arith) (mat : container) (use_raw : bool)
  (dtype : string) :
  extract fp mat use_raw dtype
  = '(m, r, c) <- container_parts mat use_raw ;;
    m' <- take_columns (argsort c) m ;;
    Ok (astype (cast fp dtype) m', r, take "" (argsort c) c).
Proof. reflexivity. Qed.

Lemma insert_by_perm (c : list string) (k : nat) (l : list nat) :
  Permutation (insert_by c k l) (k :: l).
Proof.
  induction l as [|t l IH]; simpl; [reflexivity |].
  destruct (String.leb (nth k c "") (nth t c "")); [reflexivity |].
  rewrite IH. apply perm_swap.
Qed.

Lemma argsort_perm (c : list string) :
  Permutation (argsort c) (seq 0 (length c)).
Proof.
  unfold argsort. induction (seq 0 (length c)) as [|k l IH]; simpl;
    [reflexivity |].
  rewrite insert_by_perm. now constructor.
Qed.

Lemma insert_by_sorted (c : list string) (k : nat) (l : list nat) :
  Sorted (key_le c) l -> Sorted (key_le c) (insert_by c k l).
Proof.
  induction l as [|t l IH]; intros Hs; simpl.
  - repeat constructor.
  - inversion Hs as [|? ? Hl Hhd]; subst.
    destruct (String.leb (nth k c "") (nth t c "")) eqn:E.
    + constructor; [exact Hs | now constructor].
    + constructor; [now apply IH |].
      assert (Htk : key_le c t k).
      { unfold key_le, label_le.
        destruct (String.leb_total (nth k c "") (nth t c "")) as [H|H];
          [congruence | exact H]. }
      destruct l as [|u l]; simpl; [now constructor |].
      destruct (String.leb (nth k c "") (nth u c "")); constructor;
        [exact Htk | now inversion Hhd].
Qed.

Lemma argsort_sorted (c : list string) : Sorted (key_le c) (argsort c).
Proof.
  unfold argsort. induction (seq 0 (length c)) as [|k l IH]; simpl;
    [constructor |].
  now apply insert_by_sorted.
Qed.

Lemma sorted_map_keys (c : list string) (l : list nat) :
  Sorted (key_le c) l -> Sorted label_le (take "" l c).
Proof.
  unfold take. induction l as [|k l IH]; intros Hs; simpl; [constructor |].
  inversion Hs as [|? ? Hl Hhd]; subst.
  constructor; [now apply IH |].
  destruct l as [|t l]; simpl; constructor. now inversion Hhd.
Qed.

Lemma take_all {A : Type} (d : A) (l : list A) :
  take d (seq 0 (length l)) l = l.
Proof.
  unfold take. apply (nth_ext _ _ d d).
  - now rewrite length_map, length_seq.
  - intros n Hn. rewrite length_map, length_seq in Hn.
    rewrite (nth_map_in _ _ n 0%nat d) by now rewrite length_seq.
    now rewrite seq_nth.
Qed.

(** Taking the entries at a permutation of all positions permutes the list. *)
Lemma take_perm {A : Type} (d : A) (idx : list nat) (l : list A) :
  Permutation idx (seq 0 (length l)) -> Permutation (take d idx l) l.
Proof.
  intros H. rewrite <- (take_all d l) at 2. unfold take.
  now apply Permutation_map.
Qed.

Lemma take_combine (idx : list nat) (c : list string) (row : list R) :
  length row = length c ->
  combine (take "" idx c) (take 0 idx row) = take ("", 0) idx (combine c row).
Proof.
  intros Hlen. unfold take. induction idx as [|k idx IH]; simpl;
    [reflexivity |].
  now rewrite IH, combine_nth.
Qed.

(** The assignments of [row[idx] = vals], pair by pair. *)
Lemma scatter_fold (row : list R) (idx : list nat) (vals : list R) :
  scatter row idx vals
  = fold_left (fun r jv => set_nth (fst jv) (snd jv) r) (combine idx vals) row.
Proof.
  revert row vals; induction idx as [|k idx IH]; intros row [|v vals]; simpl;
    try reflexivity.
  apply IH.
Qed.

Lemma entries_length (E : list (nat * R)) (row : list R) :
  length (fold_left (fun r jv => set_nth (fst jv) (snd jv) r) E row)
  = length row.
Proof.
  revert row; induction E as [|jv E IH]; intros row; simpl; [reflexivity |].
  now rewrite IH, set_nth_length.
Qed.

Lemma entries_skip (E : list (nat * R)) (row : list R) (p : nat) :
  ~ In p (map fst E) ->
  nth p (fold_left (fun r jv => set_nth (fst jv) (snd jv) r) E row) 0
  = nth p row 0.
Proof.
  revert row; induction E as [|[k v] E IH]; intros row H; simpl;
    [reflexivity |].
  rewrite IH by (intros Hin; apply H; now right).
  apply nth_set_nth_other. intros ->. apply H. now left.
Qed.

Lemma entries_in (E : list (nat * R)) (row : list R) (p : nat) (v : R) :
  NoDup (map fst E) -> In (p, v) E -> (p < length row)%nat ->
  nth p (fold_left (fun r jv => set_nth (fst jv) (snd jv) r) E row) 0 = v.
Proof.
  revert row; induction E as [|[k w] E IH]; intros row Hnd Hin Hp;
    simpl in *; [contradiction |].
  inversion Hnd as [|? ? Hk Hnd']; subst.
  destruct Hin as [Heq|Hin].
  - injection Heq as -> ->. rewrite entries_skip by exact Hk.
    now apply nth_set_nth_same.
  - apply IH; [exact Hnd' | exact Hin | now rewrite set_nth_length].
Qed.

Lemma dense_row_sparse (s : csr) (i : nat) :
  dense_row (Sparse s) i
  = fold_left (fun r jv => set_nth (fst jv) (snd jv) r) (stored s i)
      (zeros (snd (cshape s))).
Proof. unfold dense_row, sample_row, stored. apply scatter_fold. Qed.

Lemma combine_fst_map {A B C : Type} (h : A * B -> C) (l : list (A * B)) :
  combine (map fst l) (map h l) = map (fun jv => (fst jv, h jv)) l.
Proof.
  induction l as [|jv l IH]; simpl; [reflexivity | now rewrite IH].
Qed.

(** The stored entries of a row of a sparse matrix that is built from its
    entries row by row. *)
Lemma stored_rows (sh : nat * nat) (entries : list (list (nat * R)))
  (h : nat * R -> R) (i : nat) :
  (i < length entries)%nat ->
  stored (mk_csr sh (flat_map (map h) entries)
            (row_pointers 0 (map (@length _) entries))
            (flat_map (map fst) entries)) i
  = map (fun jv => (fst jv, h jv)) (nth i entries []).
Proof.
  intros Hi. unfold stored; cbn [data indptr indices].
  rewrite (slice_chunk fst _ i Hi), (slice_chunk h _ i Hi).
  apply combine_fst_map.
Qed.

Lemma flat_map_map_map {A B C : Type} (f : A -> B) (g : B -> C)
  (es : list (list A)) :
  map g (flat_map (map f) es) = flat_map (map (fun e => g (f e))) es.
Proof.
  induction es as [|e es IH]; simpl; [reflexivity |].
  now rewrite map_app, map_map, IH.
Qed.

Lemma positions_in (j p : nat) (idx : list nat) :
  In p (positions j idx) <-> (p < length idx)%nat /\ nth p idx 0%nat = j.
Proof.
  unfold positions. rewrite filter_In, in_seq, Nat.eqb_eq.
  split; intros [H1 H2]; (split; [lia | exact H2]).
Qed.

(** The columns that [m[:, idx]] keeps of a row, and where it puts them. *)
Lemma taken_in (idx : list nat) (E : list (nat * R)) (p : nat) (v : R) :
  In (p, v)
     (flat_map (fun jv => map (fun p => (p, snd jv)) (positions (fst jv) idx))
               E)
  <-> (p < length idx)%nat /\ In (nth p idx 0%nat, v) E.
Proof.
  rewrite in_flat_map. split.
  - intros ([j w] & Hin & Hp). cbn [fst snd] in Hp.
    apply in_map_iff in Hp. destruct Hp as (q & Heq & Hq).
    injection Heq as -> ->. apply positions_in in Hq.
    destruct Hq as [Hq <-]. now split.
  - intros [Hp Hin]. exists (nth p idx 0%nat, v). split; [exact Hin |].
    cbn [fst snd]. apply in_map_iff. exists p. split; [reflexivity |].
    now apply positions_in.
Qed.

Lemma taken_nodup (idx : list nat) (E : list (nat * R)) :
  NoDup (map fst E) ->
  NoDup (map fst
           (flat_map (fun jv => map (fun p => (p, snd jv))
                                    (positions (fst jv) idx)) E)).
Proof.
  induction E as [|[j v] E IH]; intros Hnd; cbn [flat_map map fst snd].
  - constructor.
  - inversion Hnd as [|? ? Hj Hnd']; subst.
    rewrite map_app, map_map. cbn [fst]. rewrite map_id.
    apply NoDup_app.
    + unfold positions. apply NoDup_filter, seq_NoDup.
    + now apply IH.
    + intros p Hp Hin. apply positions_in in Hp. destruct Hp as [_ Hp].
      apply in_map_iff in Hin. destruct Hin as ([q w] & Heq & Hin).
      cbn [fst] in Heq. subst q. apply taken_in in Hin.
      destruct Hin as [_ Hin]. apply Hj. rewrite <- Hp.
      apply in_map_iff. now exists (nth p idx 0%nat, w).
Qed.

(** Row [i] of [m[:, idx].astype(dtype)] holds at position [p] the
    converted value of column [idx[p]]. *)
Lemma taken_dense_row (cast : R -> R) (idx : list nat) (n : nat)
  (m0 m' : matrix) (i : nat) :
  wf_matrix n m0 -> cast 0 = 0 ->
  Forall (fun k => (k < n)%nat) idx ->
  take_columns idx m0 = Ok m' ->
  (i < fst (mshape m0))%nat ->
  dense_row (astype cast m') i = take 0 idx (map cast (dense_row m0 i)).
Proof.
  intros Hwf H0 Hidx Htake Hi.
  unfold take_columns in Htake.
  destruct (forallb _ idx); [| discriminate]. injection Htake as <-.
  rewrite Forall_forall in Hidx.
  destruct m0 as [a|s].
  - destruct Hwf as [Hwf Hn]. cbn [mshape fst] in Hi. unfold shape0 in Hi.
    cbn [astype dense_row rows]. rewrite map_map.
    rewrite (nth_map_in _ (rows a) i [] []) by exact Hi.
    assert (Hlen : length (nth i (rows a) []) = n).
    { unfold wf_ndarray in Hwf. rewrite Forall_forall in Hwf.
      rewrite <- Hn. apply Hwf. now apply nth_In. }
    unfold take. rewrite map_map. apply map_ext_in. intros k Hk.
    symmetry. apply nth_map_in. rewrite Hlen. now apply Hidx.
  - destruct Hwf as [Hn Hrows]. cbn [mshape] in Hi.
    destruct (Hrows i Hi) as [Hnd Hrange].
    rewrite Forall_forall in Hrange.
    unfold csr_take. cbn [astype cshape data indptr indices].
    rewrite flat_map_map_map. rewrite !dense_row_sparse.
    rewrite stored_rows by now rewrite length_map, length_seq.
    rewrite (nth_map_in _ (seq 0 (fst (cshape s))) i 0%nat [])
      by now rewrite length_seq.
    rewrite seq_nth by exact Hi. cbn [Nat.add cshape snd].
    set (E := stored s i) in *.
    set (E' := flat_map _ E).
    apply (nth_ext _ _ 0 0).
    { rewrite entries_length. unfold take, zeros.
      now rewrite repeat_length, length_map. }
    intros p Hp. rewrite entries_length in Hp. unfold zeros in Hp.
    rewrite repeat_length in Hp.
    unfold take at 1.
    rewrite (nth_map_in _ idx p 0%nat 0) by exact Hp.
    set (j := nth p idx 0%nat).
    assert (Hj : (j < n)%nat) by (apply Hidx; now apply nth_In).
    rewrite (nth_map_in cast _ j 0 0)
      by (rewrite entries_length; unfold zeros; rewrite repeat_length; lia).
    destruct (in_dec Nat.eq_dec j (map fst E)) as [Hin|Hnin].
    + apply in_map_iff in Hin. destruct Hin as ([j' v] & Hj' & Hin).
      cbn [fst] in Hj'. subst j'.
      rewrite (entries_in E _ j v Hnd Hin)
        by (unfold zeros; rewrite repeat_length; lia).
      apply entries_in.
      * rewrite map_map. cbn [fst]. now apply taken_nodup.
      * apply in_map_iff. exists (p, v). split; [reflexivity |].
        apply taken_in. now split.
      * unfold zeros. now rewrite repeat_length.
    + rewrite (entries_skip E _ j Hnin).
      unfold zeros at 2. rewrite nth_repeat, H0.
      rewrite entries_skip; [unfold zeros; apply nth_repeat |].
      rewrite map_map. cbn [fst]. intros Hin.
      apply in_map_iff in Hin. destruct Hin as ([q w] & Hq & Hin).
      cbn [fst] in Hq. subst q. apply taken_in in Hin.
      destruct Hin as [_ Hin]. apply Hnin.
      apply in_map_iff. now exists (nth p idx 0%nat, w).
Qed.

Lemma dense_row_length (n : nat) (m : matrix) (i : nat) :
  wf_matrix n m -> (i < fst (mshape m))%nat -> length (dense_row m i) = n.
Proof.
  intros Hwf Hi. destruct m as [a|s].
  - destruct Hwf as [Hwf Hn]. cbn [mshape fst dense_row] in *.
    unfold wf_ndarray in Hwf. rewrite Forall_forall in Hwf.
    rewrite <- Hn. apply Hwf. now apply nth_In.
  - destruct Hwf as [Hn _]. cbn [dense_row].
    now rewrite sample_row_length.
Qed.

(** Sorted features.  When [extract] reads a matrix that has one column
    per feature label, it returns the sample labels untouched and the
    feature labels in ascending order.  For every sample the pairs (feature
    label, value) of the returned matrix are those of the input,
    rearranged, the values converted to [dtype] (a conversion that keeps
    zero at zero): each value stays with its label.  When no label occurs
    twice, position [p] of a returned row holds the value of the feature
    that the sort moved to [p]. *)
Theorem extract_sorted_features (fp : arith) (mat : container)
  (use_raw : bool) (dtype : string) (m0 : matrix) (r0 c0 : list string) :
  container_parts mat use_raw = Ok (m0, r0, c0) ->
  wf_matrix (length c0) m0 ->
  cast fp dtype 0 = 0 ->
  exists m c,
    extract fp mat use_raw dtype = Ok (m, r0, c)
    /\ mshape m = (fst (mshape m0), length c0)
    /\ Sorted label_le c /\ Permutation c c0
    /\ forall i,
         (i < fst (mshape m0))%nat ->
         Permutation (combine c (dense_row m i))
                     (combine c0 (map (cast fp dtype) (dense_row m0 i)))
         /\ (NoDup c0 ->
             dense_row m i
             = take 0 (argsort c0) (map (cast fp dtype) (dense_row m0 i))).
Proof.
  intros Hparts Hwf H0. rewrite extract_unfold, Hparts. cbn [bind].
  set (msk := argsort c0).
  assert (Hmsk : Permutation msk (seq 0 (length c0))) by apply argsort_perm.
  assert (Hlen : length msk = length c0).
  { rewrite (Permutation_length Hmsk). apply length_seq. }
  assert (Hidx : Forall (fun k => (k < length c0)%nat) msk).
  { apply Forall_forall. intros k Hk.
    apply (Permutation_in _ Hmsk) in Hk. apply in_seq in Hk. lia. }
  assert (Hcols : snd (mshape m0) = length c0).
  { destruct m0 as [a|s]; [destruct Hwf as [_ Hn] | destruct Hwf as [Hn _]];
      exact Hn. }
  assert (Hall : forallb (fun k => (k <? snd (mshape m0))%nat) msk = true).
  { apply forallb_forall. intros k Hk. apply Nat.ltb_lt. rewrite Hcols.
    rewrite Forall_forall in Hidx. now apply Hidx. }
  destruct (take_columns msk m0) as [m'|e] eqn:Htake.
  2:{ unfold take_columns in Htake. rewrite Hall in Htake. discriminate. }
  cbn [bind].
  exists (astype (cast fp dtype) m'), (take "" msk c0).
  split; [reflexivity |].
  split.
  { unfold take_columns in Htake. rewrite Hall in Htake.
    injection Htake as <-. rewrite <- Hlen.
    destruct m0 as [a|s]; cbn [astype mshape csr_take cshape fst];
      [| reflexivity].
    unfold shape0, shape1; cbn [rows ncols]. now rewrite !length_map. }
  split; [apply sorted_map_keys, argsort_sorted |].
  split; [now apply take_perm |].
  intros i Hi.
  pose proof (taken_dense_row (cast fp dtype) msk (length c0) m0 m' i
                Hwf H0 Hidx Htake Hi) as Hrow.
  split; [| intros _; exact Hrow].
  rewrite Hrow.
  assert (Hrl : length (map (cast fp dtype) (dense_row m0 i)) = length c0).
  { rewrite length_map. now apply dense_row_length. }
  rewrite (take_combine msk c0 _ Hrl).
  apply take_perm. now rewrite length_combine, Hrl, Nat.min_id.
Qed.

Lemma filter_keys_nodup {A B : Type} (p : A * B -> bool) (l : list (A * B)) :
  NoDup (map fst l) -> NoDup (map fst (filter p l)).
Proof.
  induction l as [|x l IH]; intros Hnd; simpl; [constructor |].
  inversion Hnd as [|? ? Hx Hnd']; subst.
  destruct (p x); [| now apply IH].
  simpl. constructor; [| now apply IH].
  intros Hin. apply Hx. apply in_map_iff in Hin.
  destruct Hin as (y & Hy & Hin). apply filter_In in Hin.
  apply in_map_iff. exists y. tauto.
Qed.

Lemma stored_csr_matrix (a : ndarray) (i : nat) :
  (i < shape0 a)%nat ->
  stored (csr_matrix a) i = row_entries (nth i (rows a) []).
Proof.
  intros Hi. unfold csr_matrix.
  rewrite stored_rows by now rewrite length_map.
  rewrite (nth_map_in row_entries (rows a) i [] []) by exact Hi.
  rewrite <- (map_id (row_entries _)) at 2.
  apply map_ext. now intros [j v].
Qed.

(** [csr_matrix(a)] stores every column of a row at most once. *)
Lemma csr_matrix_wf (a : ndarray) :
  wf_ndarray a -> wf_matrix (ncols a) (Sparse (csr_matrix a)).
Proof.
  intros Hwf. split; [reflexivity |].
  intros i Hi. cbn [csr_matrix cshape fst] in Hi.
  rewrite (stored_csr_matrix a i Hi). unfold row_entries.
  assert (Hlen : length (nth i (rows a) []) = ncols a).
  { unfold wf_ndarray in Hwf. rewrite Forall_forall in Hwf.
    apply Hwf. now apply nth_In. }
  split.
  - apply filter_keys_nodup.
    rewrite map_fst_combine by now rewrite length_seq.
    apply seq_NoDup.
  - apply Forall_forall. intros [k v] Hin. apply filter_In in Hin.
    destruct Hin as [Hin _]. apply in_combine_l in Hin.
    apply in_seq in Hin. cbn [fst]. lia.
Qed.

Lemma extract_sorted_features_witness :
  exists m,
    extract (ideal Sample.student1) Sample.unsorted_input true "float32"
    = Ok (m, ["S1"], ["G1"; "G2"])
    /\ mshape m = (1%nat, 2%nat)
    /\ dense_row m 0 = [20; 10].
Proof.
  destruct (extract_sorted_features (ideal Sample.student1)
              Sample.unsorted_input true "float32"
              (Sparse (csr_matrix (mk_ndarray 2 [[10; 20]]))) ["S1"]
              ["G2"; "G1"] eq_refl)
    as (m & c & He & Hs & _ & _ & Hrows).
  - apply (csr_matrix_wf (mk_ndarray 2 [[10; 20]])). repeat constructor.
  - reflexivity.
  - exists m. split; [| split; [exact Hs |]].
    + rewrite He. f_equal. f_equal.
      rewrite extract_unfold in He. cbn [container_parts Sample.unsorted_input
        bind] in He.
      destruct (take_columns _ _); cbn [bind] in He; [| discriminate He].
      now injection He.
    + destruct (Hrows 0%nat) as [_ Hrow];
        [cbn [mshape csr_matrix cshape fst]; unfold shape0; simpl; lia |].
      rewrite Hrow.
      2:{ constructor; [intros [H | []]; discriminate H |].
          constructor; [intros [] | constructor]. }
      rewrite (dense_row_csr_matrix (mk_ndarray 2 [[10; 20]]) 0)
        by (try (repeat constructor); unfold shape0; simpl; lia).
      reflexivity.
Defined.

(** ** Dense or sparse *)

(** The format of the extracted matrix.  Where [extract] returns, the
    matrix is sparse on every path but one: with [use_raw], the matrix of an
    AnnData object is [mat.raw.X] as it is, so the result is dense exactly
    when [mat.raw.X] is dense. *)
Theorem extract_format (fp : arith) (mat : container) (use_raw : bool)
  (dtype : string) (m : matrix) (r c : list string) :
  extract fp mat use_raw dtype = Ok (m, r, c) ->
  match mat with
  | CAnnData a =>
      if use_raw
      then exists x v, raw a = Some (x, v) /\ is_dense m = is_dense x
      else is_dense m = false
  | _ => is_dense m = false
  end.
Proof.
  assert (Hfmt : forall idx m0 m1 cast,
             take_columns idx m0 = Ok m1 ->
             is_dense (astype cast m1) = is_dense m0).
  { intros idx m0 m1 cast H. unfold take_columns in H.
    destruct (forallb _ idx); [| discriminate H]. injection H as <-.
    now destruct m0. }
  intros He. rewrite extract_unfold in He.
  destruct mat as [m0 r0 c0|values idx cols|a|]; cbn [container_parts] in He.
  - cbn [bind] in He.
    destruct (take_columns _ _) as [m1|e] eqn:Ht; cbn [bind] in He;
      [| discriminate He].
    injection He as <- _ _. now rewrite (Hfmt _ _ _ _ Ht).
  - cbn [bind] in He.
    destruct (take_columns _ _) as [m1|e] eqn:Ht; cbn [bind] in He;
      [| discriminate He].
    injection He as <- _ _. now rewrite (Hfmt _ _ _ _ Ht).
  - destruct use_raw.
    + destruct (raw a) as [[x v]|]; cbn [bind] in He; [| discriminate He].
      destruct (take_columns _ _) as [m1|e] eqn:Ht; cbn [bind] in He;
        [| discriminate He].
      injection He as <- _ _. exists x, v. split; [reflexivity |].
      apply (Hfmt _ _ _ _ Ht).
    + cbn [bind] in He.
      destruct (take_columns _ _) as [m1|e] eqn:Ht; cbn [bind] in He;
        [| discriminate He].
      injection He as <- _ _. now rewrite (Hfmt _ _ _ _ Ht).
  - discriminate He.
Qed.

Lemma extract_format_witness :
  exists m x v,
    extract (ideal Sample.student1) (CAnnData Sample.adata_raw_dense) true
      "float32" = Ok (m, ["S1"], ["G1"; "G2"])
    /\ raw Sample.adata_raw_dense = Some (x, v)
    /\ is_dense m = is_dense x /\ is_dense x = true.
Proof.
  assert (He : extract (ideal Sample.student1)
                 (CAnnData Sample.adata_raw_dense) true "float32"
               = Ok (Dense (mk_ndarray 2 [[20; 10]]), ["S1"], ["G1"; "G2"]))
    by reflexivity.
  destruct (extract_format _ _ _ _ _ _ _ He) as (x & v & Hraw & Hd).
  exists (Dense (mk_ndarray 2 [[20; 10]])), x, v.
  split; [exact He | split; [exact Hraw | split; [exact Hd |]]].
  rewrite <- Hd. reflexivity.
Defined.

(** ** Renaming with a weight column *)

Lemma has_dup_cons_false (x : string) (l : list string) :
  has_dup (x :: l) = false -> ~ In x l /\ has_dup l = false.
Proof.
  simpl. intros H. apply orb_false_iff in H. destruct H as [H1 H2].
  split; [| exact H2]. intros Hin.
  rewrite <- not_true_iff_false in H1. apply H1.
  apply existsb_exists. exists x. split; [exact Hin | apply String.eqb_refl].
Qed.

Lemma find_column_in (name : string) (cs : list (string * list cell))
  (col : list cell) :
  find_column name cs = Some col -> In name (map fst cs).
Proof.
  induction cs as [|[n c] cs IH]; simpl; [discriminate |].
  destruct (String.eqb_spec n name) as [->|Hne]; [now left |].
  intros H. right. now apply IH.
Qed.

Lemma find_column_has (name : string) (d : DataFrame) (col : list cell) :
  find_column name (columns d) = Some col -> has_column name d = true.
Proof.
  intros H. unfold has_column. apply existsb_exists. exists name.
  split; [now apply (find_column_in name _ col) | apply String.eqb_refl].
Qed.

(** When the renamed labels do not repeat, the column that carries the new
    label is the column that carried the old one. *)
Lemma find_column_after_rename (f : string -> string)
  (cs : list (string * list cell)) (name name' : string) (col : list cell) :
  has_dup (map f (map fst cs)) = false ->
  f name = name' ->
  find_column name cs = Some col ->
  find_column name' (map (fun nc => (f (fst nc), snd nc)) cs) = Some col.
Proof.
  intros Hdup Hf. induction cs as [|[n c] cs IH]; simpl; [discriminate |].
  simpl in Hdup. apply has_dup_cons_false in Hdup. destruct Hdup as [Hnin Hdup].
  destruct (String.eqb_spec n name) as [->|Hne].
  - intros H. rewrite Hf, String.eqb_refl. exact H.
  - intros H. destruct (String.eqb_spec (f n) name') as [Heq|_].
    + exfalso. apply Hnin. rewrite Heq, <- Hf. apply in_map.
      now apply (find_column_in name cs col).
    + now apply IH.
Qed.

Lemma mapper_named (source target weight l : string) :
  dict_get l (dict_display [(source, "source"); (target, "target");
                            (weight, "weight")]) l
  = if String.eqb weight l then "weight"
    else if String.eqb target l then "target"
         else if String.eqb source l then "source" else l.
Proof.
  unfold dict_display; cbn [fold_left fst snd].
  rewrite !dict_get_set. reflexivity.
Qed.

(** Named weights.  Let the three column names be different and present,
    and let the renamed labels be distinct.  Then [rename_net] prints
    nothing and returns a new frame with the caller's row labels and
    exactly the columns source, target, weight, which hold the data of the
    three named columns. *)
Theorem rename_net_named (w : world) (net : ref)
  (source target weight : string) (d : DataFrame) (cs ct cw : list cell) :
  nth_error (frames w) net = Some d ->
  source <> target -> source <> weight -> target <> weight ->
  find_column source (columns d) = Some cs ->
  find_column target (columns d) = Some ct ->
  find_column weight (columns d) = Some cw ->
  has_dup (renamed_labels_named source target weight d) = false ->
  exists r,
    fst (rename_net net source target (Some weight) w) = Ok r
    /\ nth_error
         (frames (snd (rename_net net source target (Some weight) w))) r
       = Some (mk_frame (index d)
                 [("source", cs); ("target", ct); ("weight", cw)])
    /\ stderr (snd (rename_net net source target (Some weight) w)) = stderr w.
Proof.
  intros Hd Hst Hsw Htw Hs Ht Hw Hdup.
  rewrite (rename_net_some_run w net source target weight d Hd
             (find_column_has _ _ _ Hs) (find_column_has _ _ _ Ht)
             (find_column_has _ _ _ Hw)).
  rewrite (rename_reindex_run w net d _ Hd).
  set (f := fun l => dict_get l (dict_display [(source, "source");
                                               (target, "target");
                                               (weight, "weight")]) l).
  assert (Hlab : labels (mk_frame (index d)
                           (map (fun nc => (f (fst nc), snd nc)) (columns d)))
                 = renamed_labels_named source target weight d).
  { unfold renamed_labels_named. unfold labels; cbn [columns].
    rewrite !map_map. apply map_ext. intros [n c]. reflexivity. }
  change (fun nc : string * list cell =>
            (dict_get (fst nc)
               (dict_display [(source, "source"); (target, "target");
                              (weight, "weight")]) (fst nc), snd nc))
    with (fun nc : string * list cell => (f (fst nc), snd nc)).
  rewrite Hlab, Hdup. cbn [fst snd frames stderr].
  exists (S (length (frames w))).
  split; [reflexivity |]. split; [| reflexivity].
  rewrite nth_error_last2. f_equal. f_equal. cbn [columns map].
  assert (Hdup' : has_dup (map f (map fst (columns d))) = false) by exact Hdup.
  apply String.eqb_neq in Hst, Hsw, Htw.
  assert (Hfs : f source = "source").
  { unfold f. rewrite mapper_named.
    rewrite (String.eqb_sym weight source), Hsw.
    rewrite (String.eqb_sym target source), Hst.
    now rewrite String.eqb_refl. }
  assert (Hft : f target = "target").
  { unfold f. rewrite mapper_named.
    rewrite (String.eqb_sym weight target), Htw.
    now rewrite String.eqb_refl. }
  assert (Hfw : f weight = "weight").
  { unfold f. rewrite mapper_named. now rewrite String.eqb_refl. }
  rewrite (find_column_after_rename f _ source "source" cs Hdup' Hfs Hs).
  rewrite (find_column_after_rename f _ target "target" ct Hdup' Hft Ht).
  rewrite (find_column_after_rename f _ weight "weight" cw Hdup' Hfw Hw).
  reflexivity.
Qed.

Lemma rename_net_named_witness :
  exists r,
    fst (rename_net 0%nat "tf" "gene" (Some "mor") Sample.world1) = Ok r
    /\ nth_error
         (frames (snd (rename_net 0%nat "tf" "gene" (Some "mor")
                         Sample.world1))) r
       = Some (mk_frame [0%Z; 1%Z]
                 [("source", [CStr "T1"; CStr "T2"]);
                  ("target", [CStr "G1"; CStr "G2"]);
                  ("weight", [CNum 1; CNum 2])])
    /\ stderr (snd (rename_net 0%nat "tf" "gene" (Some "mor") Sample.world1))
       = [].
Proof.
  apply (rename_net_named Sample.world1 0%nat "tf" "gene" "mor"
           Sample.tf_gene_mor); try reflexivity; discriminate.
Defined.

(** ** A zero weight in the covariance *)

Lemma sum_map_affine (a b : R) (l : list R) :
  sum (map (fun v => a * v + b) l) = a * sum l + b * INR (length l).
Proof.
  induction l as [|v l IH]; [simpl; ring |].
  cbn [map sum fold_right length]. fold (sum (map (fun v => a * v + b) l)).
  fold (sum l). rewrite IH, S_INR. ring.
Qed.

Lemma sum_map_minus {A : Type} (c : R) (f g : A -> R) (l : list A) :
  sum (map (fun p => f p - c * g p) l)
  = sum (map f l) - c * sum (map g l).
Proof.
  unfold sum. induction l as [|p l IH]; simpl; [ring |].
  rewrite IH. ring.
Qed.

Lemma sum_centered (l : list R) : sum (map (fun a => a - mean l) l) = 0.
Proof.
  destruct l as [|a0 l0]; [reflexivity |].
  set (l := a0 :: l0).
  rewrite (map_ext _ (fun v => 1 * v + - mean l)) by (intros v; ring).
  rewrite sum_map_affine. unfold mean.
  assert (Hn : INR (length l) <> 0) by (apply not_0_INR; discriminate).
  field. exact Hn.
Qed.

(** The covariance needs the mean of the weights only. *)
Lemma biased_cov_alt (x y : list R) :
  length x = length y ->
  biased_cov x y
  = sum (map (fun p => (fst p - mean x) * snd p) (combine x y))
    * / INR (length x).
Proof.
  intros Hlen. rewrite (biased_cov_sum x y Hlen). f_equal.
  rewrite (map_ext _ (fun p : R * R =>
                        (fst p - mean x) * snd p
                        - mean y * (fst p - mean x)))
    by (intros p; ring).
  rewrite (sum_map_minus (mean y) (fun p : R * R => (fst p - mean x) * snd p)
             (fun p => fst p - mean x)).
  rewrite <- (map_map fst (fun a => a - mean x)).
  rewrite (map_fst_combine x y Hlen), sum_centered. ring.
Qed.

Lemma sum_combine_set_nth (g : R -> R) (x y : list R) (k : nat) (v : R) :
  length x = length y -> (k < length y)%nat ->
  sum (map (fun p => g (fst p) * snd p) (combine x (set_nth k v y)))
  = sum (map (fun p => g (fst p) * snd p) (combine x y))
    + g (nth k x 0) * (v - nth k y 0).
Proof.
  unfold sum.
  revert y k; induction x as [|a x IH]; intros [|b y] k Hlen Hk;
    simpl in Hlen, Hk; try lia.
  destruct k as [|k]; simpl.
  - ring.
  - rewrite (IH y k) by lia. ring.
Qed.

(** Zero weight, still counted.  When the weight of a feature is zero, its
    observed value still enters the covariance that the kernel computes:
    changing that value from [y_k] to [v] changes the covariance by
    [- mean(x) * (v - y_k) / N]. *)
Theorem zero_weight_still_counts (x y : list R) (k : nat) (v : R) :
  length x = length y -> (k < length y)%nat -> nth k x 0 = 0 ->
  ssxym x (set_nth k v y)
  = ssxym x y - mean x * (v - nth k y 0) / INR (length x).
Proof.
  intros Hlen Hk Hzero. unfold ssxym.
  rewrite (cov_bias_entries x y Hlen).
  rewrite (cov_bias_entries x (set_nth k v y))
    by now rewrite set_nth_length.
  rewrite (biased_cov_alt x y Hlen).
  rewrite (biased_cov_alt x (set_nth k v y)) by now rewrite set_nth_length.
  rewrite (sum_combine_set_nth (fun a => a - mean x) x y k v Hlen Hk).
  rewrite Hzero. unfold Rdiv. ring.
Qed.

Lemma zero_weight_still_counts_witness :
  ssxym [1; 2; 0] (set_nth 2 2 [1; 2; 0])
  = ssxym [1; 2; 0] [1; 2; 0] - mean [1; 2; 0] * (2 - 0) / INR 3.
Proof.
  apply (zero_weight_still_counts [1; 2; 0] [1; 2; 0] 2 2);
    [reflexivity | simpl; lia | reflexivity].
Defined.

(** ** The regulator axis after filtering *)

(** Regulator axis.  After [filt_min_n], the regulators on the axis of
    [get_net_mat] are exactly the regulators of the network that have at
    least [max 1 min_n] records with a target among the feature labels. *)
Theorem filtered_axis (c : list string) (net : list edge) (min_n : Z)
  (sources targets : list string) (X : ndarray) (s : string) :
  get_net_mat (filt_min_n c net min_n) = Ok (sources, targets, X) ->
  (In s sources <->
   (Z.max 1 min_n <= Z.of_nat (n_resolved c net s))%Z).
Proof.
  intros H. apply get_net_mat_sources in H. destruct H as [-> _].
  rewrite unique_in, filt_min_n_filter, in_map_iff. split.
  - intros (e & <- & He). apply filter_In in He. destruct He as [_ He].
    apply andb_true_iff in He. destruct He as [H1 H2].
    apply Nat.leb_le in H1. apply Z.leb_le in H2. lia.
  - intros Hs.
    assert (Hpos : (0 < n_resolved c net s)%nat) by lia.
    unfold n_resolved in Hpos.
    destruct (filter (fun e => String.eqb (source e) s && isin1 c (target e))
                net) as [|e l] eqn:E; [simpl in Hpos; lia |].
    assert (He : In e (filter (fun e => String.eqb (source e) s
                                        && isin1 c (target e)) net))
      by (rewrite E; now left).
    apply filter_In in He. destruct He as [Hin Hq].
    apply andb_true_iff in Hq. destruct Hq as [Hq _].
    apply String.eqb_eq in Hq.
    exists e. split; [exact Hq |].
    apply filter_In. split; [exact Hin |]. rewrite Hq.
    apply andb_true_iff. split; [apply Nat.leb_le | apply Z.leb_le]; lia.
Qed.

Lemma filtered_axis_witness :
  In "T1" ["T1"]
  <-> (Z.max 1 2
       <= Z.of_nat (n_resolved Sample.features123 Sample.net_small "T1"))%Z.
Proof.
  apply (filtered_axis Sample.features123 Sample.net_small 2 ["T1"]
           ["G1"; "G2"] (mk_ndarray 1 [[1]; [2]]) "T1").
  reflexivity.
Defined.

